(** * boring-cache: a file-persisted key-value cache with per-entry expiry

    Shallow embedding of the three revisions of the [BoringCache] class found
    in the repository, and the properties stated about it.

    - [src/src/index.ts]       scalar entries only               (module [Index])
    - [src/unnamed/part_001]   scalar and list entries           (module [Part001])
    - [src/unnamed/part_000]   the same, with constructor options (module [Part000])

    The methods [get], [list], [set], [push], [delete], [clear], [save] and
    [scheduleWrite] are written the same way in [part_000] and [part_001];
    they are embedded once, in module [BoringCache].  [pull] and the
    constructor differ and are embedded per revision.

    Modelling conventions.
    - [Date.now()] is an explicit argument [now : Z] of every method, each of
      which reads the clock once.  The constructor of [part_000] reads it
      once for every initial entry and once more in the [save] it ends with:
      it takes the sequence [clock] of its readings.
    - [this.data] is a plain object used as a dictionary: the mapping [data]
      lists its own properties, and its prototype is the one [{}] and
      [JSON.parse] give it.  An assignment [this.data[key] = ...] creates or
      replaces the own property [key] for every key but ['__proto__'] (see
      [_set] and [push]).
    - A timestamp is an integer; the [expires?: number] field is an
      [option Z], [None] standing for an absent field ([undefined]).
    - A stored value is an element of a type [V] whose equality is the one
      [===] computes (numbers, strings, booleans, or identities of objects).
    - [setImmediate] hands out fresh handles; the callbacks waiting in the
      event loop are the list [immediates] of the environment.  Every callback
      the class registers is [() => this.save()].
    - A file holds either text on which [JSON.parse] throws, or the JSON
      document it denotes; [FS.outputJSONSync] is taken to succeed. *)

From Stdlib Require Import ZArith Lia List Bool.
From stdpp Require Import base option list strings gmap fin_maps.

Local Open Scope Z_scope.

(** ** Data model *)

(** [interface CacheEntry { value: unknown; expires?: number }] *)
Record CacheEntry (V : Type) := mkEntry {
  value : V;
  expires : option Z
}.
Arguments mkEntry {V} _ _.
Arguments value {V} _.
Arguments expires {V} _.

(** [CacheEntry | CacheEntry[]], the two shapes a key can hold. *)
Inductive Slot (V : Type) :=
| Scalar (entry : CacheEntry V)
| Items (items : list (CacheEntry V)).
Arguments Scalar {V} _.
Arguments Items {V} _.

(** The [ttl] argument: [Infinity] (the default) or a number of milliseconds. *)
Inductive Ttl :=
| Infinity
| Millis (t : Z).

(** A JSON document that is not an object of entries and entry arrays. *)
Inductive ForeignJson :=
| JNull
| JBoolean (b : bool)
| JNumber (z : Z)
| JString (s : string)
| JNumbers (zs : list Z).

(** What [JSON.parse] returns on well-formed text. *)
Inductive Json (V : Type) :=
| Mapping (d : gmap string (Slot V))
| Foreign (j : ForeignJson).
Arguments Mapping {V} _.
Arguments Foreign {V} _.

(** Contents of a file, as [JSON.parse] sees them. *)
Inductive File (V : Type) :=
| Unparsable (text : string)
| JsonText (j : Json V).
Arguments Unparsable {V} _.
Arguments JsonText {V} _.

(** The host process: the file system, the event loop's queue of immediates,
    the next handle [setImmediate] returns, and the number of listeners
    registered for the ['exit'] event. *)
Record Env (V : Type) := mkEnv {
  files : gmap string (File V);
  immediates : list nat;
  next_immediate : nat;
  exit_listeners : nat
}.
Arguments mkEnv {V} _ _ _ _.
Arguments files {V} _.
Arguments immediates {V} _.
Arguments next_immediate {V} _.
Arguments exit_listeners {V} _.

(** The fields of a [BoringCache] object. *)
Record Cache (V : Type) := mkCache {
  path : string;
  ttl : Ttl;
  data : gmap string (Slot V);
  writeDebounceTimer : option nat
}.
Arguments mkCache {V} _ _ _ _.
Arguments path {V} _.
Arguments ttl {V} _.
Arguments data {V} _.
Arguments writeDebounceTimer {V} _.

(** The second argument of [pull]: a function, or a value to compare with. *)
Inductive ValuePredicate (V : Type) :=
| Literal (v : V)
| Predicate (f : V -> bool).
Arguments Literal {V} _.
Arguments Predicate {V} _.

Inductive Error :=
| SyntaxError.

(** Result of [new BoringCache(path, options)]. *)
Inductive Constructed (V : Type) :=
| Thrown (e : Error)
| Built (c : Cache V)
| BuiltForeign (p : string) (t : Ttl) (j : ForeignJson).
Arguments Thrown {V} _.
Arguments Built {V} _.
Arguments BuiltForeign {V} _ _ _.

(** ** Expiry tests, as the source writes them *)

(** Truth value of [entry.expires]: [undefined] and [0] are falsy. *)
Definition truthy (e : option Z) : bool :=
  match e with
  | None => false
  | Some x => negb (x =? 0)
  end.

(** [entry.expires > now]; a comparison with [undefined] is false. *)
Definition after (e : option Z) (now : Z) : bool :=
  match e with
  | None => false
  | Some x => now <? x
  end.

(** [entry.expires < now] *)
Definition before (e : option Z) (now : Z) : bool :=
  match e with
  | None => false
  | Some x => x <? now
  end.

(** [!item.expires || item.expires > now], the test of [get], [list] and of
    the array branch of [save]. *)
Definition live {V} (now : Z) (item : CacheEntry V) : bool :=
  negb (truthy (expires item)) || after (expires item) now.

(** [entry.expires && entry.expires < now], the test of the scalar branch of
    [save]. *)
Definition outdated {V} (now : Z) (entry : CacheEntry V) : bool :=
  truthy (expires entry) && before (expires entry) now.

(** [ttl === Infinity ? undefined : Date.now() + ttl] *)
Definition stamp (now : Z) (t : Ttl) : option Z :=
  match t with
  | Infinity => None
  | Millis ms => Some (now + ms)
  end.

(** ** Methods shared by [part_000] and [part_001] *)
Module BoringCache.

Section Methods.

Context {V : Type} `{EqDecision V}.

(** The object with [this.data] replaced. *)
Definition with_data (d : gmap string (Slot V)) (c : Cache V) : Cache V :=
  mkCache (path c) (ttl c) d (writeDebounceTimer c).

(** The object with [this.writeDebounceTimer] replaced. *)
Definition with_timer (t : option nat) (c : Cache V) : Cache V :=
  mkCache (path c) (ttl c) (data c) t.

(** [setImmediate(cb)]: queue the callback, return a fresh handle. *)
Definition setImmediate (e : Env V) : nat * Env V :=
  (next_immediate e,
   mkEnv (files e) (immediates e ++ [next_immediate e])
         (S (next_immediate e)) (exit_listeners e)).

(** [clearImmediate(h)]: take the callback out of the queue. *)
Definition clearImmediate (h : nat) (e : Env V) : Env V :=
  mkEnv (files e) (List.filter (fun h' => negb (Nat.eqb h' h)) (immediates e))
        (next_immediate e) (exit_listeners e).

(** [FS.outputJSONSync(path, data)] *)
Definition outputJSONSync (p : string) (d : gmap string (Slot V)) (e : Env V)
  : Env V :=
  mkEnv (<[p := JsonText (Mapping d)]> (files e)) (immediates e)
        (next_immediate e) (exit_listeners e).

(** [scheduleWrite()] *)
Definition scheduleWrite (c : Cache V) (e : Env V) : Cache V * Env V :=
  match writeDebounceTimer c with
  | Some _ => (c, e)
  | None =>
      let '(h, e') := setImmediate e in
      (with_timer (Some h) c, e')
  end.

(** [get(key)] *)
Definition get (key : string) (now : Z) (c : Cache V) : option V :=
  match data c !! key with
  | Some (Items _) => None
  | Some (Scalar entry) => if live now entry then Some (value entry) else None
  | None => None
  end.

(** [_set(key, value, ttl)].  For the key ['__proto__'], when it is not an
    own property already, the assignment replaces the prototype of
    [this.data] and creates no own property; the mapping then holds, under
    that key, the object a read of the key itself returns.  Statements about
    other keys, about a [delete] after such a write or about what [save] then
    writes are made for keys other than ['__proto__']. *)
Definition _set (key : string) (v : V) (t : Ttl) (now : Z) (c : Cache V)
  : Cache V :=
  with_data (<[key := Scalar (mkEntry v (stamp now t))]> (data c)) c.

(** [set(key, value, ttl = Infinity)]; [part_001] writes the body of [_set]
    in place. *)
Definition set (key : string) (v : V) (t : Ttl) (now : Z)
    (c : Cache V) (e : Env V) : Cache V * Env V :=
  scheduleWrite (_set key v t now c) e.

(** [list(key)] *)
Definition list (key : string) (now : Z) (c : Cache V) : Datatypes.list V :=
  match data c !! key with
  | Some (Items items) => map value (List.filter (live now) items)
  | _ => []
  end.

(** [push(key, value, ttl = Infinity)]; the assignment is the one of [_set],
    with the same proviso for ['__proto__']. *)
Definition push (key : string) (v : V) (t : Ttl) (now : Z)
    (c : Cache V) (e : Env V) : Cache V * Env V :=
  let items := match data c !! key with
               | Some (Items items) => items
               | _ => []
               end in
  scheduleWrite
    (with_data (<[key := Items (items ++ [mkEntry v (stamp now t)])]> (data c)) c)
    e.

(** The function [pull] builds from its argument:
    [typeof value === 'function' ? value : cv => cv === value]. *)
Definition matcher (m : ValuePredicate V) : V -> bool :=
  match m with
  | Predicate f => f
  | Literal v => fun comparingValue => bool_decide (comparingValue = v)
  end.

(** [delete(key)] *)
Definition delete (key : string) (c : Cache V) (e : Env V)
  : Cache V * Env V :=
  scheduleWrite (with_data (base.delete key (data c)) c) e.

(** [clear()] *)
Definition clear (c : Cache V) (e : Env V) : Cache V * Env V :=
  scheduleWrite (with_data ∅ c) e.

(** [Object.keys(data)] *)
Definition keys (d : gmap string (Slot V)) : Datatypes.list string :=
  (map_to_list d).*1.

(** One turn of the loop of [save], for [key]. *)
Definition sweep (now : Z) (d : gmap string (Slot V)) (key : string)
  : gmap string (Slot V) :=
  match d !! key with
  | Some (Items items) =>
      let entry := List.filter (live now) items in
      if Nat.eqb (length entry) 0 then base.delete key d
      else <[key := Items entry]> d
  | Some (Scalar entry) =>
      if outdated now entry then base.delete key d else d
  | None => base.delete key d
  end.

(** [save()].  [part_001] calls [clearImmediate(this.writeDebounceTimer)]
    without the test; on [undefined] that call does nothing, so the two
    revisions agree. *)
Definition save (now : Z) (c : Cache V) (e : Env V) : Cache V * Env V :=
  let e1 := match writeDebounceTimer c with
            | Some h => clearImmediate h e
            | None => e
            end in
  let d := foldl (sweep now) (data c) (keys (data c)) in
  (mkCache (path c) (ttl c) d None, outputJSONSync (path c) d e1).

(** The event loop runs the first waiting immediate, which is
    [() => this.save()]. *)
Definition runImmediate (now : Z) (c : Cache V) (e : Env V)
  : Cache V * Env V :=
  match immediates e with
  | [] => (c, e)
  | _ :: rest =>
      save now c (mkEnv (files e) rest (next_immediate e) (exit_listeners e))
  end.

(** The listener [() => { if (this.writeDebounceTimer) this.save() }]
    registered for ['exit']. *)
Definition onExit (now : Z) (c : Cache V) (e : Env V) : Cache V * Env V :=
  match writeDebounceTimer c with
  | Some _ => save now c e
  | None => (c, e)
  end.

(** [process.on('exit', ...)] *)
Definition addExitListener (e : Env V) : Env V :=
  mkEnv (files e) (immediates e) (next_immediate e) (S (exit_listeners e)).

End Methods.

End BoringCache.

(** ** [src/unnamed/part_000] *)
Module Part000.

Section Methods.

Context {V : Type} `{EqDecision V}.

(** [pull(key, value)]: keeps [items.filter(({value}) => !matcher(value))]. *)
Definition pull (key : string) (m : ValuePredicate V)
    (c : Cache V) (e : Env V) : Cache V * Env V :=
  match data c !! key with
  | Some (Items items) =>
      BoringCache.scheduleWrite
        (BoringCache.with_data
           (<[key := Items (List.filter
                              (fun item => negb (BoringCache.matcher m (value item)))
                              items)]> (data c)) c)
        e
  | _ => (c, e)
  end.

(** The loop [for (let [key, value] of Object.entries(data || {}))
    this._set(key, value, ttl)].  Every [_set] reads the clock: [clock i] is
    the reading of the [i]-th call of [Date.now()] the constructor makes, and
    [i] counts the calls made so far. *)
Fixpoint seed (initial : list (string * V)) (t : Ttl) (clock : nat -> Z)
    (i : nat) (c : Cache V) : Cache V :=
  match initial with
  | [] => c
  | kv :: rest =>
      seed rest t clock (S i) (BoringCache._set kv.1 kv.2 t (clock i) c)
  end.

(** [constructor(path, {data, ttl = Infinity} = {})]; [initial] lists the
    entries of [data] in the order of [Object.entries] and is empty when no
    data is given.  With no file, the [save] that ends the construction makes
    the reading that follows those of the loop. *)
Definition constructor (p : string) (initial : list (string * V)) (t : Ttl)
    (clock : nat -> Z) (e : Env V) : Constructed V * Env V :=
  match files e !! p with
  | Some (Unparsable _) => (Thrown SyntaxError, e)
  | Some (JsonText (Mapping d)) =>
      (Built (mkCache p t d None), BoringCache.addExitListener e)
  | Some (JsonText (Foreign j)) =>
      (BuiltForeign p t j, BoringCache.addExitListener e)
  | None =>
      let '(c, e') :=
        BoringCache.save (clock (length initial))
          (seed initial t clock 0 (mkCache p t ∅ None)) e in
      (Built c, BoringCache.addExitListener e')
  end.

End Methods.

End Part000.

(** ** [src/unnamed/part_001] *)
Module Part001.

Section Methods.

Context {V : Type} `{EqDecision V}.

(** [pull(key, value)]: keeps [items.filter(({value}) => filter(value))]. *)
Definition pull (key : string) (m : ValuePredicate V)
    (c : Cache V) (e : Env V) : Cache V * Env V :=
  match data c !! key with
  | Some (Items items) =>
      BoringCache.scheduleWrite
        (BoringCache.with_data
           (<[key := Items (List.filter
                              (fun item => BoringCache.matcher m (value item))
                              items)]> (data c)) c)
        e
  | _ => (c, e)
  end.

(** [constructor(path)]; this revision has no [ttl] field, the default of
    every call being [Infinity]. *)
Definition constructor (p : string) (e : Env V) : Constructed V * Env V :=
  match files e !! p with
  | Some (Unparsable _) => (Thrown SyntaxError, e)
  | Some (JsonText (Mapping d)) =>
      (Built (mkCache p Infinity d None), BoringCache.addExitListener e)
  | Some (JsonText (Foreign j)) =>
      (BuiltForeign p Infinity j, BoringCache.addExitListener e)
  | None =>
      let '(c, e') := BoringCache.scheduleWrite (mkCache p Infinity ∅ None) e in
      (Built c, BoringCache.addExitListener e')
  end.

End Methods.

End Part001.

(** ** [src/src/index.ts] *)
Module Index.

Section Methods.

Context {V : Type}.

(** [constructor(path)]; no listener for ['exit'] in this revision. *)
Definition constructor (p : string) (e : Env V) : Constructed V * Env V :=
  match files e !! p with
  | Some (Unparsable _) => (Thrown SyntaxError, e)
  | Some (JsonText (Mapping d)) => (Built (mkCache p Infinity d None), e)
  | Some (JsonText (Foreign j)) => (BuiltForeign p Infinity j, e)
  | None =>
      let '(c, e') := BoringCache.scheduleWrite (mkCache p Infinity ∅ None) e in
      (Built c, e')
  end.

(** [get(key)] of this revision, which has no test for arrays.  Its data are
    declared [Dict<CacheEntry>]; on an array, which a file written by a later
    revision can hold, [entry.expires] and [entry.value] are [undefined], so
    the first test passes and the answer is [undefined]. *)
Definition get (key : string) (now : Z) (c : Cache V) : option V :=
  match data c !! key with
  | Some (Scalar entry) => if live now entry then Some (value entry) else None
  | Some (Items _) => None
  | None => None
  end.

(** One turn of the loop of [save] of this revision:
    [if (!entry || (entry.expires && entry.expires < now)) delete data[key]].
    An array is truthy and has no [expires]: it stays as it is. *)
Definition sweep (now : Z) (d : gmap string (Slot V)) (key : string)
  : gmap string (Slot V) :=
  match d !! key with
  | Some (Scalar entry) =>
      if outdated now entry then base.delete key d else d
  | Some (Items _) => d
  | None => base.delete key d
  end.

(** [save()] of this revision. *)
Definition save (now : Z) (c : Cache V) (e : Env V) : Cache V * Env V :=
  let e1 := match writeDebounceTimer c with
            | Some h => BoringCache.clearImmediate h e
            | None => e
            end in
  let d := foldl (sweep now) (data c) (BoringCache.keys (data c)) in
  (mkCache (path c) (ttl c) d None, BoringCache.outputJSONSync (path c) d e1).

End Methods.

End Index.

(** ** Calls and traces *)

(** The two revisions with lists, which differ in [pull]. *)
Inductive Revision :=
| part_000
| part_001.

(** A call of a public method. *)
Inductive Call (V : Type) :=
| CallGet (key : string)
| CallSet (key : string) (v : V) (t : Ttl)
| CallList (key : string)
| CallPush (key : string) (v : V) (t : Ttl)
| CallPull (key : string) (m : ValuePredicate V)
| CallDelete (key : string)
| CallClear
| CallSave.
Arguments CallGet {V} _.
Arguments CallSet {V} _ _ _.
Arguments CallList {V} _.
Arguments CallPush {V} _ _ _.
Arguments CallPull {V} _ _.
Arguments CallDelete {V} _.
Arguments CallClear {V}.
Arguments CallSave {V}.

(** What the host does next: call a method, or return to the event loop,
    which runs one waiting immediate. *)
Inductive Event (V : Type) :=
| Invoke (call : Call V)
| Idle.
Arguments Invoke {V} _.
Arguments Idle {V}.

(** What a call returns. *)
Inductive Returned (V : Type) :=
| Void
| Value (v : option V)
| Values (vs : list V).
Arguments Void {V}.
Arguments Value {V} _.
Arguments Values {V} _.

Section Traces.

Context {V : Type} `{EqDecision V}.

Definition pull (r : Revision) :=
  match r with
  | part_000 => Part000.pull (V := V)
  | part_001 => Part001.pull (V := V)
  end.

(** One call at clock reading [now], on the object [c] in the process [e]. *)
Definition invoke (r : Revision) (now : Z) (call : Call V)
    (c : Cache V) (e : Env V) : Returned V * (Cache V * Env V) :=
  match call with
  | CallGet key => (Value (BoringCache.get key now c), (c, e))
  | CallSet key v t => (Void, BoringCache.set key v t now c e)
  | CallList key => (Values (BoringCache.list key now c), (c, e))
  | CallPush key v t => (Void, BoringCache.push key v t now c e)
  | CallPull key m => (Void, pull r key m c e)
  | CallDelete key => (Void, BoringCache.delete key c e)
  | CallClear => (Void, BoringCache.clear c e)
  | CallSave => (Void, BoringCache.save now c e)
  end.

Definition step (r : Revision) (s : Cache V * Env V) (ev : Z * Event V)
    : Cache V * Env V :=
  match ev.2 with
  | Invoke call => (invoke r ev.1 call s.1 s.2).2
  | Idle => BoringCache.runImmediate ev.1 s.1 s.2
  end.

(** A trace of timed events, run from left to right. *)
Definition run (r : Revision) (trace : list (Z * Event V))
    (s : Cache V * Env V) : Cache V * Env V :=
  foldl (step r) s trace.

End Traces.

(** ** Auxiliary definitions for the statements *)

Section Statements.

Context {V : Type} `{EqDecision V}.

(** What one turn of the loop of [save] leaves under the key it visits. *)
Definition swept (now : Z) (s : Slot V) : option (Slot V) :=
  match s with
  | Items items =>
      if Nat.eqb (length (List.filter (live now) items)) 0 then None
      else Some (Items (List.filter (live now) items))
  | Scalar entry => if outdated now entry then None else Some s
  end.

(** [item] is stored under [key], as the scalar or as an element of the list. *)
Definition holds (d : gmap string (Slot V)) (key : string)
    (item : CacheEntry V) : Prop :=
  d !! key = Some (Scalar item)
  \/ exists items, d !! key = Some (Items items) /\ item ∈ items.

(** The mapping a file holds, when it holds one. *)
Definition written (e : Env V) (p : string) : option (gmap string (Slot V)) :=
  match files e !! p with
  | Some (JsonText (Mapping d)) => Some d
  | _ => None
  end.

(** No entry of [d] has an [expires] field at or before [now]. *)
Definition all_after (now : Z) (d : gmap string (Slot V)) : Prop :=
  forall key item x, holds d key item -> expires item = Some x -> now < x.

(** The queue of the event loop holds the write-back of the cache, when one
    is scheduled, and nothing else. *)
Definition pending_ok (c : Cache V) (e : Env V) : Prop :=
  immediates e = match writeDebounceTimer c with
                 | Some h => [h]
                 | None => []
                 end.

(** The calls that reach [scheduleWrite]: the four unconditional mutations,
    and [pull] when the slot is a list. *)
Definition schedules (call : Call V) (c : Cache V) : bool :=
  match call with
  | CallSet _ _ _ | CallPush _ _ _ | CallDelete _ | CallClear => true
  | CallPull key _ =>
      match data c !! key with
      | Some (Items _) => true
      | _ => false
      end
  | CallGet _ | CallList _ | CallSave => false
  end.

(** The same call issued [delta] milliseconds later with a [ttl] shortened by
    [delta], so that the entry it writes carries the same [expires]. *)
Definition delayed (delta : Z) (call : Call V) : Call V :=
  match call with
  | CallSet key v (Millis ms) => CallSet key v (Millis (ms - delta))
  | CallPush key v (Millis ms) => CallPush key v (Millis (ms - delta))
  | _ => call
  end.

Definition is_save (call : Call V) : bool :=
  match call with
  | CallSave => true
  | _ => false
  end.

(** Calls of [save] at the given times, one after the other. *)
Definition saves (times : list Z) (s : Cache V * Env V) : Cache V * Env V :=
  foldl (fun s' now => BoringCache.save now s'.1 s'.2) s times.

End Statements.

(** ** Concrete objects used in the examples *)

(** A cache on ["cache.json"] holding nothing, with no write-back waiting. *)
Definition empty_cache : Cache Z := mkCache "cache.json" Infinity ∅ None.

(** A process with no file, no waiting immediate and no listener. *)
Definition fresh_env : Env Z := mkEnv ∅ [] 0 0.

(** A process whose only file is ["cache.json"]. *)
Definition env_with (f : File Z) : Env Z := mkEnv {["cache.json" := f]} [] 0 0.

(** The calls [push('nums', 1); push('nums', 2); pull('nums', 1)] on an empty
    cache, in the given revision. *)
Definition pull_scenario (r : Revision) : Cache Z * Env Z :=
  run r [(10, Invoke (CallPush "nums" 1 Infinity));
         (11, Invoke (CallPush "nums" 2 Infinity));
         (12, Invoke (CallPull "nums" (Literal 1)))]
      (empty_cache, fresh_env).

(** A cache holding a scalar that expires at [100], a list whose only element
    has [expires: 0], and a list whose elements all expired at [50]. *)
Definition boundary_cache : Cache Z :=
  mkCache "cache.json" Infinity
    {[ "a" := Scalar (mkEntry 1 (Some 100));
       "b" := Items [mkEntry 2 (Some 0)];
       "c" := Items [mkEntry 3 (Some 50); mkEntry 4 (Some 50)] ]}
    None.

(** A cache holding one live scalar, one stale scalar and a list with a live
    and a stale element, read at time [100]. *)
Definition mixed_cache : Cache Z :=
  mkCache "cache.json" Infinity
    {[ "a" := Scalar (mkEntry 1 (Some 150));
       "b" := Scalar (mkEntry 2 (Some 50));
       "n" := Items [mkEntry 3 (Some 50); mkEntry 4 None; mkEntry 5 (Some 150)] ]}
    None.

(** Three mutations issued in a row. *)
Definition burst : list (Z * Event Z) :=
  [(10, Invoke (CallSet "a" 1 Infinity));
   (10, Invoke (CallPush "n" 2 (Millis 5)));
   (11, Invoke (CallDelete "a"))].

(** ** Further definitions for the statements *)

Section MoreStatements.

Context {V : Type}.

(** The key a call names, if it names one. *)
Definition target (call : Call V) : option string :=
  match call with
  | CallGet key | CallSet key _ _ | CallList key | CallPush key _ _
  | CallPull key _ | CallDelete key => Some key
  | CallClear | CallSave => None
  end.

(** Every slot of the mapping is a scalar, as [index.ts] declares. *)
Definition scalars_only (d : gmap string (Slot V)) : Prop :=
  forall key items, d !! key <> Some (Items items).

(** Two entries with the same value, whatever their [expires]. *)
Definition same_value (e1 e2 : CacheEntry V) : Prop :=
  value e1 = value e2.

(** Two slots of the same shape holding, place by place, the same values. *)
Inductive alike : Slot V -> Slot V -> Prop :=
| alike_scalar (e1 e2 : CacheEntry V) :
    same_value e1 e2 -> alike (Scalar e1) (Scalar e2)
| alike_items (l1 l2 : list (CacheEntry V)) :
    Forall2 same_value l1 l2 -> alike (Items l1) (Items l2).

(** Two mappings with the same keys, whose slots are alike: they differ at
    most in which of their entries are stale. *)
Definition alike_data (d1 d2 : gmap string (Slot V)) : Prop :=
  forall key, option_Forall2 alike (d1 !! key) (d2 !! key).

(** The events that are calls of [get] or [list]. *)
Definition is_read (ev : Z * Event V) : bool :=
  match ev.2 with
  | Invoke (CallGet _) | Invoke (CallList _) => true
  | _ => false
  end.

(** A clock that shows [now] at every reading. *)
Definition steady (now : Z) : nat -> Z := fun _ => now.

End MoreStatements.

(** [mixed_cache] with every [expires] removed: the same values at the same
    places, none of them stale. *)
Definition unstamped_cache : Cache Z :=
  mkCache "cache.json" Infinity
    {[ "a" := Scalar (mkEntry 1 None);
       "b" := Scalar (mkEntry 2 None);
       "n" := Items [mkEntry 3 None; mkEntry 4 None; mkEntry 5 None] ]}
    None.

(** ** The sweep of [save], slot by slot *)

Section Sweep.

Context {V : Type}.

Lemma sweep_lookup (now : Z) (d : gmap string (Slot V)) (key k : string) :
  BoringCache.sweep now d key !! k
  = if decide (k = key) then d !! k ≫= swept now else d !! k.
Proof.
  unfold BoringCache.sweep.
  destruct (decide (k = key)) as [->|Hne].
  - destruct (d !! key) as [[entry|items]|] eqn:Hd; simpl.
    + destruct (outdated now entry); [apply lookup_delete_eq | done].
    + destruct (Nat.eqb _ 0); [apply lookup_delete_eq | apply lookup_insert_eq].
    + apply lookup_delete_eq.
  - destruct (d !! key) as [[entry|items]|] eqn:Hd; simpl.
    + destruct (outdated now entry); [by rewrite lookup_delete_ne | done].
    + destruct (Nat.eqb _ 0);
        [by rewrite lookup_delete_ne | by rewrite lookup_insert_ne].
    + by rewrite lookup_delete_ne.
Qed.

Lemma foldl_sweep_lookup (now : Z) (ks : list string) :
  NoDup ks ->
  forall (d : gmap string (Slot V)) (k : string),
    foldl (BoringCache.sweep now) d ks !! k
    = if decide (k ∈ ks) then d !! k ≫= swept now else d !! k.
Proof.
  induction 1 as [|key ks Hnotin Hnodup IH]; intros d k; simpl.
  - destruct (decide (k ∈ [])) as [Hin|_]; [by apply elem_of_nil in Hin | done].
  - rewrite IH, sweep_lookup.
    destruct (decide (k = key)) as [->|Hne].
    + destruct (decide (key ∈ ks)); [done|].
      destruct (decide (key ∈ key :: ks)) as [_|Hout]; [done|].
      exfalso; apply Hout; left.
    + destruct (decide (k ∈ ks)) as [Hin|Hout].
      * destruct (decide (k ∈ key :: ks)) as [_|Hout']; [done|].
        exfalso; apply Hout'; by right.
      * destruct (decide (k ∈ key :: ks)) as [Hin'|_]; [|done].
        apply elem_of_cons in Hin' as [?|?]; done.
Qed.

Lemma keys_spec (d : gmap string (Slot V)) (k : string) :
  k ∈ BoringCache.keys d <-> is_Some (d !! k).
Proof.
  unfold BoringCache.keys. rewrite list_elem_of_fmap. split.
  - intros [[k' s] [-> Hin]]. apply elem_of_map_to_list in Hin. by exists s.
  - intros [s Hs]. exists (k, s). split; [done|]. by apply elem_of_map_to_list.
Qed.

(** The loop of [save] sweeps every slot, each on its own. *)
Lemma save_loop_lookup (now : Z) (d : gmap string (Slot V)) (k : string) :
  foldl (BoringCache.sweep now) d (BoringCache.keys d) !! k
  = d !! k ≫= swept now.
Proof.
  rewrite foldl_sweep_lookup by apply NoDup_fst_map_to_list.
  destruct (decide (k ∈ BoringCache.keys d)) as [_|Hout]; [done|].
  destruct (d !! k) eqn:Hd; [|done].
  exfalso; apply Hout, keys_spec; by rewrite Hd.
Qed.

Lemma save_data (now : Z) (c : Cache V) (e : Env V) (k : string) :
  data (BoringCache.save now c e).1 !! k = data c !! k ≫= swept now.
Proof. apply save_loop_lookup. Qed.

Lemma save_file (now : Z) (c : Cache V) (e : Env V) :
  files (BoringCache.save now c e).2 !! path c
  = Some (JsonText (Mapping (data (BoringCache.save now c e).1))).
Proof.
  unfold BoringCache.save; simpl. apply lookup_insert_eq.
Qed.

End Sweep.

(** ** [pull] *)

Section Pull.

Context {V : Type} `{EqDecision V}.

(** In [part_000] a list slot keeps, in order, the entries the matcher
    rejects; nothing else changes in the mapping. *)
Lemma pull_part_000_removes_matches (key : string) (m : ValuePredicate V)
    (c : Cache V) (e : Env V) (items : list (CacheEntry V)) :
  data c !! key = Some (Items items) ->
  data (Part000.pull key m c e).1
  = <[key := Items (List.filter
                      (fun item => negb (BoringCache.matcher m (value item)))
                      items)]> (data c).
Proof.
  intros Hslot. unfold Part000.pull. rewrite Hslot.
  unfold BoringCache.scheduleWrite; simpl.
  by destruct (writeDebounceTimer c).
Qed.

(** In [part_001] a list slot keeps, in order, the entries the matcher
    accepts. *)
Lemma pull_part_001_keeps_matches (key : string) (m : ValuePredicate V)
    (c : Cache V) (e : Env V) (items : list (CacheEntry V)) :
  data c !! key = Some (Items items) ->
  data (Part001.pull key m c e).1
  = <[key := Items (List.filter
                      (fun item => BoringCache.matcher m (value item))
                      items)]> (data c).
Proof.
  intros Hslot. unfold Part001.pull. rewrite Hslot.
  unfold BoringCache.scheduleWrite; simpl.
  by destruct (writeDebounceTimer c).
Qed.

(** An entry stays after the [pull] of [part_000] exactly when its value does
    not match. *)
Lemma pull_part_000_membership (key : string) (m : ValuePredicate V)
    (c : Cache V) (e : Env V) (items : list (CacheEntry V))
    (item : CacheEntry V) :
  data c !! key = Some (Items items) ->
  exists kept,
    data (Part000.pull key m c e).1 !! key = Some (Items kept)
    /\ sublist kept items
    /\ (item ∈ kept <->
        item ∈ items /\ BoringCache.matcher m (value item) = false).
Proof.
  intros Hslot. eexists. split; [|split].
  - rewrite (pull_part_000_removes_matches _ _ _ _ _ Hslot).
    apply lookup_insert_eq.
  - clear Hslot. induction items as [|x xs IH]; simpl; [constructor|].
    destruct (negb _); by constructor.
  - rewrite !list_elem_of_In, filter_In, negb_true_iff. done.
Qed.

End Pull.

(** [part_000] answers [[2]] to [list('nums')] after the scenario. *)
Lemma pull_scenario_part_000 :
  BoringCache.list "nums" 13 (pull_scenario part_000).1 = [2].
Proof. vm_compute. reflexivity. Qed.

(** C1, on [part_001]: after [push('nums', 1); push('nums', 2);
    pull('nums', 1)] the call [list('nums')] returns [[1]], not [[2]]: this
    revision's [pull] keeps the entries that match and drops the others. *)
Theorem pull_scenario_part_001 :
  BoringCache.list "nums" 13 (pull_scenario part_001).1 = [1]
  /\ BoringCache.list "nums" 13 (pull_scenario part_001).1 <> [2].
Proof. vm_compute. split; [reflexivity | discriminate]. Qed.

(** ** Expiry tests *)

Section Expiry.

Context {V : Type}.

Lemma live_spec (now : Z) (item : CacheEntry V) :
  live now item = true
  <-> expires item = None \/ expires item = Some 0
      \/ exists x, expires item = Some x /\ now < x.
Proof.
  unfold live, truthy, after. destruct (expires item) as [x|]; simpl.
  - rewrite orb_true_iff, negb_true_iff, negb_false_iff, Z.eqb_eq, Z.ltb_lt.
    split.
    + intros [->|Hlt]; [by right; left | right; right; by exists x].
    + intros [?|[[= ->]|(y & [= ->] & Hlt)]]; [done|by left|by right].
  - split; [by left | done].
Qed.

Lemma outdated_spec (now : Z) (entry : CacheEntry V) :
  outdated now entry = true
  <-> exists x, expires entry = Some x /\ x <> 0 /\ x < now.
Proof.
  unfold outdated, truthy, before. destruct (expires entry) as [x|]; simpl.
  - rewrite andb_true_iff, negb_true_iff, Z.eqb_neq, Z.ltb_lt. split.
    + intros [? ?]. by exists x.
    + intros (y & [= ->] & ? & ?). done.
  - split; [done | by intros (? & ? & _)].
Qed.

(** An entry that is live at [t] was live at every earlier time. *)
Lemma live_earlier (s t : Z) (item : CacheEntry V) :
  s <= t -> live t item = true -> live s item = true.
Proof.
  intros Hst. rewrite !live_spec.
  intros [?|[?|(x & ? & ?)]]; [by left | by right; left |].
  right; right. exists x. split; [done | lia].
Qed.

(** An entry [save] drops as a scalar is not live. *)
Lemma outdated_not_live (s t : Z) (entry : CacheEntry V) :
  s <= t -> outdated s entry = true -> live t entry = false.
Proof.
  intros Hst (x & Hx & Hnz & Hlt)%outdated_spec.
  apply not_true_is_false. rewrite live_spec, Hx.
  intros [?|[[= ?]|(y & [= <-] & ?)]]; [done | done | lia].
Qed.

Lemma filter_live_earlier (s t : Z) (items : list (CacheEntry V)) :
  s <= t ->
  List.filter (live t) (List.filter (live s) items) = List.filter (live t) items.
Proof.
  intros Hst. induction items as [|x xs IH]; simpl; [done|].
  destruct (live s x) eqn:Hs; simpl.
  - rewrite IH. done.
  - destruct (live t x) eqn:Ht; [|done].
    apply (live_earlier s t) in Ht; [congruence | done].
Qed.

End Expiry.

(** ** Reads after a [save] *)

Section SaveTransparent.

Context {V : Type}.

(** A [save] changes the answer of no later [get]. *)
Lemma get_after_save (key : string) (s t : Z) (c : Cache V) (e : Env V) :
  s <= t ->
  BoringCache.get key t (BoringCache.save s c e).1 = BoringCache.get key t c.
Proof.
  intros Hst. unfold BoringCache.get. rewrite save_data.
  destruct (data c !! key) as [[entry|items]|]; simpl; [| |done].
  - destruct (outdated s entry) eqn:Hout; simpl; [|done].
    by rewrite (outdated_not_live s t entry Hst Hout).
  - by destruct (Nat.eqb _ 0).
Qed.

(** A [save] changes the answer of no later [list]. *)
Lemma list_after_save (key : string) (s t : Z) (c : Cache V) (e : Env V) :
  s <= t ->
  BoringCache.list key t (BoringCache.save s c e).1 = BoringCache.list key t c.
Proof.
  intros Hst. unfold BoringCache.list. rewrite save_data.
  destruct (data c !! key) as [[entry|items]|]; simpl; [| |done].
  - by destruct (outdated s entry).
  - destruct (Nat.eqb _ 0) eqn:Hlen; simpl.
    + apply Nat.eqb_eq, nil_length_inv in Hlen.
      by rewrite <- (filter_live_earlier s t items Hst), Hlen.
    + by rewrite filter_live_earlier.
Qed.

(** Nor does any number of them. *)
Lemma reads_after_saves (key : string) (t : Z) (times : list Z)
    (s : Cache V * Env V) :
  Forall (fun now => now <= t) times ->
  BoringCache.get key t (saves times s).1 = BoringCache.get key t s.1
  /\ BoringCache.list key t (saves times s).1 = BoringCache.list key t s.1.
Proof.
  intros Hall. revert s. unfold saves.
  induction Hall as [|now rest Hnow _ IH]; intros s; simpl; [done|].
  destruct (IH (BoringCache.save now s.1 s.2)) as [-> ->].
  by rewrite get_after_save, list_after_save.
Qed.

End SaveTransparent.

(** ** What [scheduleWrite] leaves alone *)

Section ScheduleWrite.

Context {V : Type}.

Lemma scheduleWrite_data (c : Cache V) (e : Env V) :
  data (BoringCache.scheduleWrite c e).1 = data c.
Proof. unfold BoringCache.scheduleWrite. by destruct (writeDebounceTimer c). Qed.

Lemma scheduleWrite_files (c : Cache V) (e : Env V) :
  files (BoringCache.scheduleWrite c e).2 = files e.
Proof. unfold BoringCache.scheduleWrite. by destruct (writeDebounceTimer c). Qed.

Lemma set_data (key : string) (v : V) (t : Ttl) (now : Z)
    (c : Cache V) (e : Env V) :
  data (BoringCache.set key v t now c e).1
  = <[key := Scalar (mkEntry v (stamp now t))]> (data c).
Proof. unfold BoringCache.set. by rewrite scheduleWrite_data. Qed.

Lemma push_data (key : string) (v : V) (t : Ttl) (now : Z)
    (c : Cache V) (e : Env V) :
  data (BoringCache.push key v t now c e).1
  = <[key := Items (match data c !! key with
                    | Some (Items items) => items
                    | _ => []
                    end ++ [mkEntry v (stamp now t)])]> (data c).
Proof. unfold BoringCache.push. by rewrite scheduleWrite_data. Qed.

Lemma live_stamped (t x : Z) (v : V) :
  x <> 0 -> live t (mkEntry v (Some x)) = (t <? x).
Proof.
  intros Hx. unfold live, truthy, after; simpl.
  apply Z.eqb_neq in Hx. by rewrite Hx.
Qed.

End ScheduleWrite.

(** ** Sweep on [save] *)

(** C2, as stated, fails: saved at time [100], the file keeps the scalar
    whose [expires] is [100] and the list element whose [expires] is [0]. *)
Lemma save_keeps_boundary_scalar_and_zero :
  exists d,
    written (BoringCache.save 100 boundary_cache fresh_env).2 "cache.json"
    = Some d
    /\ d !! "a" = Some (Scalar (mkEntry 1 (Some 100)))
    /\ d !! "b" = Some (Items [mkEntry 2 (Some 0)])
    /\ ~ all_after 100 d.
Proof.
  eexists. split; [vm_compute; reflexivity|].
  split; [vm_compute; reflexivity|]. split; [vm_compute; reflexivity|].
  intros Hall.
  assert (100 < 100) as Hlt; [|lia].
  apply (Hall "a" (mkEntry 1 (Some 100)) 100); [|done].
  left. vm_compute. reflexivity.
Qed.

Section SaveSweeps.

Context {V : Type}.

(** C2, amended: the mapping [save] writes at time [now] is the in-memory
    mapping it leaves; it holds no list element whose [expires] is non-zero
    and at or before [now], no scalar entry whose [expires] is non-zero and
    before [now], and no key whose list the filtering emptied. *)
Theorem save_sweeps (now : Z) (c : Cache V) (e : Env V) :
  exists d,
    written (BoringCache.save now c e).2 (path c) = Some d
    /\ d = data (BoringCache.save now c e).1
    /\ (forall key items item x,
          d !! key = Some (Items items) -> item ∈ items ->
          expires item = Some x -> x <> 0 -> now < x)
    /\ (forall key item x,
          d !! key = Some (Scalar item) ->
          expires item = Some x -> x <> 0 -> now <= x)
    /\ (forall key items,
          data c !! key = Some (Items items) ->
          List.filter (live now) items = [] -> d !! key = None)
    /\ (forall key, d !! key <> Some (Items [])).
Proof.
  exists (data (BoringCache.save now c e).1).
  split; [unfold written; by rewrite save_file|]. split; [done|].
  split; [|split; [|split]].
  - intros key items item x Hd Hin Hx Hnz. rewrite save_data in Hd.
    destruct (data c !! key) as [[entry|old]|]; simpl in Hd; [| |done].
    + by destruct (outdated now entry).
    + destruct (Nat.eqb _ 0); [done|]. injection Hd as <-.
      apply list_elem_of_In, filter_In in Hin as [_ Hlive].
      apply live_spec in Hlive as [?|[?|(y & ? & ?)]]; congruence.
  - intros key item x Hd Hx Hnz. rewrite save_data in Hd.
    destruct (data c !! key) as [[entry|old]|]; simpl in Hd; [| |done].
    + destruct (outdated now entry) eqn:Hout; [done|]. injection Hd as <-.
      destruct (Z.le_gt_cases now x) as [?|Hlt]; [done|].
      assert (outdated now entry = true); [|congruence].
      apply outdated_spec. by exists x.
    + by destruct (Nat.eqb _ 0).
  - intros key items Hd Hnil. rewrite save_data, Hd; simpl. by rewrite Hnil.
  - intros key Hd. rewrite save_data in Hd.
    destruct (data c !! key) as [[entry|old]|]; simpl in Hd; [| |done].
    + by destruct (outdated now entry).
    + destruct (Nat.eqb _ 0) eqn:Hlen; [done|]. injection Hd as Hd.
      by rewrite Hd in Hlen.
Qed.

End SaveSweeps.

(** ** Expiry on read *)

(** C3, as stated, fails: the entry written at time [1000] with a ttl of
    [-1000] has [expires = 0]; [get] at time [2000], which is not before [0],
    still returns its value, and so does [list] for the pushed entry. *)
Lemma zero_expiry_is_read_forever :
  stamp 1000 (Millis (-1000)) = Some 0
  /\ 0 <= 2000
  /\ BoringCache.get "a" 2000
       (BoringCache.set "a" 1 (Millis (-1000)) 1000 empty_cache fresh_env).1
     = Some 1
  /\ BoringCache.list "a" 2000
       (BoringCache.push "a" 1 (Millis (-1000)) 1000 empty_cache fresh_env).1
     = [1].
Proof. vm_compute. repeat split; try reflexivity. discriminate. Qed.

Section ExpiryOnRead.

Context {V : Type}.

(** C3, amended: an entry written at time [w] with a finite ttl [ms] such
    that [w + ms] is not [0] is returned by [get] (for [set]) and listed by
    [list] after the older live entries (for [push]) at every time before
    [w + ms], and at no time from [w + ms] on; calls of [save] made in
    between, at times up to the read, change neither answer. *)
Theorem ttl_monotonicity (key : string) (v : V) (ms w t : Z) (times : list Z)
    (c : Cache V) (e : Env V) :
  w + ms <> 0 ->
  Forall (fun now => now <= t) times ->
  let stored := BoringCache.set key v (Millis ms) w c e in
  let pushed := BoringCache.push key v (Millis ms) w c e in
  BoringCache.get key t stored.1 = (if t <? w + ms then Some v else None)
  /\ BoringCache.get key t (saves times stored).1
     = (if t <? w + ms then Some v else None)
  /\ BoringCache.list key t pushed.1
     = BoringCache.list key t c ++ (if t <? w + ms then [v] else [])
  /\ BoringCache.list key t (saves times pushed).1
     = BoringCache.list key t c ++ (if t <? w + ms then [v] else []).
Proof.
  intros Hnz Htimes stored pushed.
  assert (BoringCache.get key t stored.1
          = (if t <? w + ms then Some v else None)) as Hget.
  { unfold BoringCache.get, stored. rewrite set_data, lookup_insert_eq.
    simpl. by rewrite live_stamped. }
  assert (BoringCache.list key t pushed.1
          = BoringCache.list key t c ++ (if t <? w + ms then [v] else []))
    as Hlist.
  { unfold BoringCache.list at 1. unfold pushed.
    rewrite push_data, lookup_insert_eq. simpl.
    rewrite List.filter_app, map_app. simpl. rewrite live_stamped by done.
    unfold BoringCache.list.
    destruct (data c !! key) as [[entry|items]|]; simpl;
      by destruct (t <? w + ms). }
  destruct (reads_after_saves key t times stored Htimes) as [-> _].
  destruct (reads_after_saves key t times pushed Htimes) as [_ ->].
  done.
Qed.

End ExpiryOnRead.

(** [set('a', 1, ttl = 50)] at time [1000]: [get('a')] is [1] at once and
    absent [60] ms later, with or without calls of [save] at times [1030]
    and [1055]. *)
Lemma ttl_monotonicity_witness :
  let stored := BoringCache.set "a" 1 (Millis 50) 1000 empty_cache fresh_env in
  BoringCache.get "a" 1000 stored.1 = Some 1
  /\ BoringCache.get "a" 1060 stored.1 = None
  /\ BoringCache.get "a" 1060 (saves [1030; 1055] stored).1 = None.
Proof.
  intros stored.
  assert (1000 + 50 <> 0) as Hnz by lia.
  assert (Forall (fun now => now <= 1060) [1030; 1055]) as Htimes
    by (repeat constructor; lia).
  split; [|split].
  - apply (ttl_monotonicity "a" 1 50 1000 1000 [] empty_cache fresh_env Hnz).
    constructor.
  - apply (ttl_monotonicity "a" 1 50 1000 1060 [1030; 1055] empty_cache
             fresh_env Hnz Htimes).
  - apply (ttl_monotonicity "a" 1 50 1000 1060 [1030; 1055] empty_cache
             fresh_env Hnz Htimes).
Defined.

(** ** Scalars and lists are read apart *)

Section Shapes.

Context {V : Type}.

(** C4: [get] on a key holding a list returns absent; [list] on a key that is
    absent or holds a scalar returns the empty sequence. *)
Theorem shape_disjointness (key : string) (now : Z) (c : Cache V) :
  (forall items, data c !! key = Some (Items items) ->
                 BoringCache.get key now c = None)
  /\ (data c !! key = None \/ (exists entry, data c !! key = Some (Scalar entry)) ->
      BoringCache.list key now c = []).
Proof.
  unfold BoringCache.get, BoringCache.list. split.
  - intros items ->. done.
  - intros [->|[entry ->]]; done.
Qed.

End Shapes.

(** On [mixed_cache]: [get('n')] is absent although the list has live
    elements, and [list('a')], [list('zz')] are empty. *)
Lemma shape_disjointness_witness :
  BoringCache.get "n" 100 mixed_cache = None
  /\ BoringCache.list "a" 100 mixed_cache = []
  /\ BoringCache.list "zz" 100 mixed_cache = [].
Proof.
  split; [|split].
  - apply (proj1 (shape_disjointness "n" 100 mixed_cache)
             [mkEntry 3 (Some 50); mkEntry 4 None; mkEntry 5 (Some 150)]).
    vm_compute. reflexivity.
  - apply (proj2 (shape_disjointness "a" 100 mixed_cache)).
    right. exists (mkEntry 1 (Some 150)). vm_compute. reflexivity.
  - apply (proj2 (shape_disjointness "zz" 100 mixed_cache)).
    left. vm_compute. reflexivity.
Defined.

(** ** Construction *)


Section Construction.

Context {V : Type}.

Lemma seed_fields (initial : list (string * V)) (t : Ttl) (clock : nat -> Z)
    (i : nat) (c : Cache V) :
  path (Part000.seed initial t clock i c) = path c
  /\ ttl (Part000.seed initial t clock i c) = ttl c
  /\ writeDebounceTimer (Part000.seed initial t clock i c)
     = writeDebounceTimer c.
Proof.
  revert i c.
  induction initial as [|kv rest IH]; intros i c; simpl; [done|].
  destruct (IH (S i) (BoringCache._set kv.1 kv.2 t (clock i) c))
    as (-> & -> & ->). done.
Qed.



Lemma save_empty (now : Z) (c : Cache V) (e : Env V) :
  data c = ∅ -> data (BoringCache.save now c e).1 = ∅.
Proof.
  intros Hd. apply map_eq. intros k.
  by rewrite save_data, Hd, !lookup_empty.
Qed.


End Construction.


(** C6, as stated, fails: a file holding the JSON document [42], which is not
    a mapping of entries, is parsed and taken as the data; the constructor
    of [part_000] returns an object and throws nothing. *)
Lemma foreign_json_is_accepted :
  Part000.constructor "cache.json" [] Infinity (steady 1000)
    (env_with (JsonText (Foreign (JNumber 42))))
  = (BuiltForeign "cache.json" Infinity (JNumber 42),
     BoringCache.addExitListener (env_with (JsonText (Foreign (JNumber 42)))))
  /\ forall err e',
      Part000.constructor "cache.json" [] Infinity (steady 1000)
        (env_with (JsonText (Foreign (JNumber 42))))
      <> (Thrown err, e').
Proof. split; [reflexivity | discriminate]. Qed.

Section Loading.

Context {V : Type}.

(** C6, amended: when the file exists, the constructor of [part_000] throws,
    changing nothing and building no object, if [JSON.parse] rejects the
    text; any document [JSON.parse] accepts becomes the data as it is: a
    mapping is loaded verbatim, stale entries included, with nothing written
    and no write-back scheduled, and a document of another shape is accepted
    without a check. *)
Theorem construction_with_file (p : string) (initial : list (string * V))
    (t : Ttl) (clock : nat -> Z) (e : Env V) :
  (forall text, files e !! p = Some (Unparsable text) ->
     Part000.constructor p initial t clock e = (Thrown SyntaxError, e))
  /\ (forall d, files e !! p = Some (JsonText (Mapping d)) ->
      exists c e',
        Part000.constructor p initial t clock e = (Built c, e')
        /\ data c = d
        /\ writeDebounceTimer c = None
        /\ files e' = files e
        /\ immediates e' = immediates e)
  /\ (forall j, files e !! p = Some (JsonText (Foreign j)) ->
      Part000.constructor p initial t clock e
      = (BuiltForeign p t j, BoringCache.addExitListener e)).
Proof.
  unfold Part000.constructor. split; [|split].
  - intros text ->. done.
  - intros d ->. eexists. eexists. split; [reflexivity|]. done.
  - intros j ->. done.
Qed.

End Loading.

(** A snapshot read at time [100] keeps the scalar that expired at [50];
    text that does not parse makes the constructor throw. *)
Lemma construction_with_file_witness :
  (exists c e',
      Part000.constructor "cache.json" [] Infinity (steady 100)
        (env_with (JsonText (Mapping (data mixed_cache)))) = (Built c, e')
      /\ data c !! "b" = Some (Scalar (mkEntry 2 (Some 50))))
  /\ Part000.constructor "cache.json" [] Infinity (steady 100)
       (env_with (Unparsable "{oops")) = (Thrown SyntaxError, env_with (Unparsable "{oops")).
Proof.
  split.
  - destruct (proj1 (proj2 (construction_with_file "cache.json" [] Infinity
                              (steady 100)
                              (env_with (JsonText (Mapping (data mixed_cache))))))
                (data mixed_cache)) as (c & e' & Hbuilt & Hdata & _).
    { vm_compute. reflexivity. }
    exists c, e'. split; [done|]. rewrite Hdata. vm_compute. reflexivity.
  - apply (proj1 (construction_with_file "cache.json" [] Infinity (steady 100)
                    (env_with (Unparsable "{oops"))) "{oops").
    vm_compute. reflexivity.
Defined.

(** ** Debounced write-back *)

Section Debounce.

Context {V : Type} `{EqDecision V}.

Lemma scheduleWrite_pending_ok (c : Cache V) (e : Env V) :
  pending_ok c e ->
  pending_ok (BoringCache.scheduleWrite c e).1 (BoringCache.scheduleWrite c e).2.
Proof.
  unfold pending_ok, BoringCache.scheduleWrite.
  destruct (writeDebounceTimer c) as [h|] eqn:Htimer; simpl.
  - by rewrite Htimer.
  - intros ->. done.
Qed.

(** With a write-back waiting, [scheduleWrite] does nothing. *)
Lemma scheduleWrite_while_pending (c : Cache V) (e : Env V) :
  is_Some (writeDebounceTimer c) -> BoringCache.scheduleWrite c e = (c, e).
Proof. intros [h Hh]. unfold BoringCache.scheduleWrite. by rewrite Hh. Qed.

(** With none waiting, it queues exactly one. *)
Lemma scheduleWrite_fresh (c : Cache V) (e : Env V) :
  writeDebounceTimer c = None -> immediates e = [] ->
  exists h,
    writeDebounceTimer (BoringCache.scheduleWrite c e).1 = Some h
    /\ immediates (BoringCache.scheduleWrite c e).2 = [h].
Proof.
  intros Htimer Hq. unfold BoringCache.scheduleWrite. rewrite Htimer; simpl.
  exists (next_immediate e). by rewrite Hq.
Qed.

(** [save] empties the queue and clears the timer. *)
Lemma save_cancels (now : Z) (c : Cache V) (e : Env V) :
  pending_ok c e ->
  writeDebounceTimer (BoringCache.save now c e).1 = None
  /\ immediates (BoringCache.save now c e).2 = [].
Proof.
  unfold pending_ok, BoringCache.save. intros Hq. split; [done|]. simpl.
  destruct (writeDebounceTimer c) as [h|]; simpl; rewrite Hq; simpl; [|done].
  by rewrite Nat.eqb_refl.
Qed.

Lemma runImmediate_cancels (now : Z) (c : Cache V) (e : Env V) :
  pending_ok c e ->
  pending_ok (BoringCache.runImmediate now c e).1
             (BoringCache.runImmediate now c e).2.
Proof.
  intros Hq. unfold BoringCache.runImmediate.
  destruct (immediates e) as [|h rest] eqn:Himm; [done|].
  unfold pending_ok in Hq. rewrite Himm in Hq.
  destruct (writeDebounceTimer c) as [h'|] eqn:Htimer; [|done].
  injection Hq as -> ->.
  unfold pending_ok, BoringCache.save. rewrite Htimer. done.
Qed.

Lemma invoke_pending_ok (r : Revision) (now : Z) (call : Call V)
    (c : Cache V) (e : Env V) :
  pending_ok c e ->
  pending_ok (invoke r now call c e).2.1 (invoke r now call c e).2.2.
Proof.
  intros Hq. destruct call as [key|key v t|key|key v t|key m|key| |]; simpl;
    try done;
    try (apply scheduleWrite_pending_ok; exact Hq).
  - destruct r; simpl; unfold Part000.pull, Part001.pull;
      (destruct (data c !! key) as [[entry|items]|]; [done| |done]);
      apply scheduleWrite_pending_ok; exact Hq.
  - change (pending_ok (BoringCache.save now c e).1 (BoringCache.save now c e).2).
    destruct (save_cancels now c e Hq) as [Htimer Himm].
    unfold pending_ok. by rewrite Htimer, Himm.
Qed.

Lemma run_pending_ok (r : Revision) (trace : list (Z * Event V))
    (s : Cache V * Env V) :
  pending_ok s.1 s.2 -> pending_ok (run r trace s).1 (run r trace s).2.
Proof.
  revert s. unfold run.
  induction trace as [|[now ev] rest IH]; intros s Hq; simpl; [done|].
  apply IH. unfold step; simpl. destruct ev as [call|].
  - by apply invoke_pending_ok.
  - by apply runImmediate_cancels.
Qed.

(** A call other than [save] made while a write-back waits leaves the queue
    and the timer as they are. *)
Lemma invoke_while_pending (r : Revision) (now : Z) (call : Call V)
    (c : Cache V) (e : Env V) :
  is_Some (writeDebounceTimer c) -> is_save call = false ->
  immediates (invoke r now call c e).2.2 = immediates e
  /\ writeDebounceTimer (invoke r now call c e).2.1 = writeDebounceTimer c.
Proof.
  intros Hsome Hcall.
  destruct call as [key|key v t|key|key v t|key m|key| |]; simpl;
    try done;
    try (unfold BoringCache.set, BoringCache.push, BoringCache.delete,
           BoringCache.clear;
         rewrite scheduleWrite_while_pending by exact Hsome; done).
  destruct r; simpl; unfold Part000.pull, Part001.pull;
    (destruct (data c !! key) as [[entry|items]|]; [done| |done]);
    rewrite scheduleWrite_while_pending by exact Hsome; done.
Qed.

(** With nothing waiting, a call that reaches [scheduleWrite] queues one
    write-back. *)
Lemma invoke_schedules (r : Revision) (now : Z) (call : Call V)
    (c : Cache V) (e : Env V) :
  writeDebounceTimer c = None -> immediates e = [] ->
  schedules call c = true ->
  exists h,
    writeDebounceTimer (invoke r now call c e).2.1 = Some h
    /\ immediates (invoke r now call c e).2.2 = [h].
Proof.
  intros Htimer Hq Hcall.
  destruct call as [key|key v t|key|key v t|key m|key| |]; simpl in *;
    try done;
    try (by apply scheduleWrite_fresh).
  destruct r; simpl; unfold Part000.pull, Part001.pull;
    (destruct (data c !! key) as [[entry|items]|]; [done| |done]);
    by apply scheduleWrite_fresh.
Qed.

(** A cache built in a process whose queue is empty starts with the queue
    and the timer in agreement, in each revision. *)
Lemma constructed_pending_ok (p : string) (initial : list (string * V))
    (t : Ttl) (clock : nat -> Z) (e : Env V) (c : Cache V) (e' : Env V) :
  immediates e = [] ->
  Part000.constructor p initial t clock e = (Built c, e')
  \/ Part001.constructor p e = (Built c, e')
  \/ Index.constructor p e = (Built c, e') ->
  pending_ok c e'.
Proof.
  intros Hq. unfold Part000.constructor, Part001.constructor, Index.constructor.
  destruct (files e !! p) as [[text|[d|j]]|]; unfold pending_ok.
  - intros [?|[?|?]]; done.
  - intros [[= <- <-]|[[= <- <-]|[= <- <-]]]; done.
  - intros [?|[?|?]]; done.
  - intros [Hb|[Hb|Hb]].
    + destruct (BoringCache.save _ _ e) as [c1 e1] eqn:Hsave.
      injection Hb as <- <-. simpl.
      destruct (seed_fields initial t clock 0 (mkCache p t ∅ None))
        as (_ & _ & Ht).
      assert (c1 = (BoringCache.save (clock (length initial))
                      (Part000.seed initial t clock 0 (mkCache p t ∅ None)) e).1)
        as -> by (by rewrite Hsave).
      assert (e1 = (BoringCache.save (clock (length initial))
                      (Part000.seed initial t clock 0 (mkCache p t ∅ None)) e).2)
        as -> by (by rewrite Hsave).
      unfold BoringCache.save. rewrite Ht. simpl. done.
    + unfold BoringCache.scheduleWrite in Hb; simpl in Hb.
      injection Hb as <- <-. simpl. by rewrite Hq.
    + unfold BoringCache.scheduleWrite in Hb; simpl in Hb.
      injection Hb as <- <-. simpl. by rewrite Hq.
Qed.

(** C7: along every trace of calls and event-loop turns, the queue holds at
    most one write-back, namely the one the timer names; a call other than
    [save] issued while one waits adds none; [save] cancels it and clears the
    timer, after which the next mutation schedules exactly one. *)
Theorem single_pending_write_back (r : Revision) (trace : list (Z * Event V))
    (c : Cache V) (e : Env V) :
  pending_ok c e ->
  let s := run r trace (c, e) in
  pending_ok s.1 s.2
  /\ (length (immediates s.2) <= 1)%nat
  /\ (forall now call,
        is_Some (writeDebounceTimer s.1) -> is_save call = false ->
        immediates (invoke r now call s.1 s.2).2.2 = immediates s.2
        /\ writeDebounceTimer (invoke r now call s.1 s.2).2.1
           = writeDebounceTimer s.1)
  /\ (forall now,
        let s' := BoringCache.save now s.1 s.2 in
        writeDebounceTimer s'.1 = None
        /\ immediates s'.2 = []
        /\ forall now' call,
             schedules call s'.1 = true ->
             exists h,
               writeDebounceTimer (invoke r now' call s'.1 s'.2).2.1 = Some h
               /\ immediates (invoke r now' call s'.1 s'.2).2.2 = [h]).
Proof.
  intros Hq s.
  assert (pending_ok s.1 s.2) as Hs by (by apply (run_pending_ok r trace (c, e))).
  split; [done|]. split; [|split].
  - unfold pending_ok in Hs. rewrite Hs.
    destruct (writeDebounceTimer s.1); simpl; lia.
  - intros now call. apply invoke_while_pending.
  - intros now s'. destruct (save_cancels now s.1 s.2 Hs) as [Htimer Himm].
    split; [done|]. split; [done|].
    intros now' call. by apply invoke_schedules.
Qed.

End Debounce.

(** Three mutations in a row from a fresh cache leave one write-back in the
    queue. *)
Lemma single_pending_write_back_witness :
  (length (immediates (run part_000 burst (empty_cache, fresh_env)).2) <= 1)%nat.
Proof.
  refine (proj1 (proj2
    (single_pending_write_back part_000 burst empty_cache fresh_env _))).
  reflexivity.
Defined.

(** ** Reads leave the store alone *)

Section Frame.

Context {V : Type} `{EqDecision V}.

(** A call other than [save] consults the clock only to stamp the entry it
    writes. *)
Lemma clock_enters_through_stamp (r : Revision) (now delta : Z)
    (call : Call V) (c : Cache V) (e : Env V) :
  is_save call = false ->
  (invoke r (now + delta) (delayed delta call) c e).2
  = (invoke r now call c e).2.
Proof.
  intros Hcall.
  destruct call as [key|key v [|ms]|key|key v [|ms]|key m|key| |]; simpl;
    try done.
  - unfold BoringCache.set, BoringCache._set; simpl.
    by replace (now + delta + (ms - delta)) with (now + ms) by lia.
  - unfold BoringCache.push; simpl.
    by replace (now + delta + (ms - delta)) with (now + ms) by lia.
Qed.

Lemma alike_refl (slot : Slot V) : alike slot slot.
Proof.
  destruct slot as [entry|items]; constructor; [done|].
  induction items; by constructor.
Qed.

Lemma same_value_filter (f : V -> bool) (l1 l2 : list (CacheEntry V)) :
  Forall2 same_value l1 l2 ->
  Forall2 same_value (List.filter (fun item => f (value item)) l1)
                     (List.filter (fun item => f (value item)) l2).
Proof.
  induction 1 as [|x y xs ys Hxy _ IH]; simpl; [constructor|].
  unfold same_value in Hxy. rewrite Hxy.
  destruct (f (value y)); [by constructor | done].
Qed.

Lemma alike_data_insert (key : string) (s1 s2 : Slot V)
    (d1 d2 : gmap string (Slot V)) :
  alike s1 s2 -> alike_data d1 d2 ->
  alike_data (<[key := s1]> d1) (<[key := s2]> d2).
Proof.
  intros Hs Hd k. rewrite !lookup_insert.
  destruct (decide (key = k)); [by constructor | apply Hd].
Qed.

Lemma alike_data_delete (key : string) (d1 d2 : gmap string (Slot V)) :
  alike_data d1 d2 -> alike_data (base.delete key d1) (base.delete key d2).
Proof.
  intros Hd k. rewrite !lookup_delete.
  destruct (decide (key = k)); [constructor | apply Hd].
Qed.

(** A call other than [save] does to two mappings that are alike what
    leaves them alike: which entries it keeps does not depend on any
    [expires]. *)
Lemma calls_ignore_expiry (r : Revision) (now : Z) (call : Call V)
    (c : Cache V) (e : Env V) (d1 d2 : gmap string (Slot V)) :
  is_save call = false ->
  alike_data d1 d2 ->
  alike_data (data (invoke r now call (BoringCache.with_data d1 c) e).2.1)
             (data (invoke r now call (BoringCache.with_data d2 c) e).2.1).
Proof.
  intros Hcall Hd.
  destruct call as [key|key v t|key|key v t|key m|key| |]; simpl; try done.
  - rewrite !set_data. simpl. apply alike_data_insert; [apply alike_refl|done].
  - rewrite !push_data. simpl. apply alike_data_insert; [|done].
    constructor. apply Forall2_app; [|by repeat constructor].
    destruct (Hd key) as [s1 s2 Hs|]; [|constructor].
    destruct Hs; [constructor | done].
  - destruct r; simpl; unfold Part000.pull, Part001.pull; simpl;
      (destruct (Hd key) as [s1 s2 Hs|]; [|done]);
      (destruct Hs as [e1 e2 He|l1 l2 Hl]; [done|]);
      rewrite !scheduleWrite_data; simpl;
      (apply alike_data_insert; [|done]); constructor.
    + by apply (same_value_filter (fun x => negb (BoringCache.matcher m x))).
    + by apply (same_value_filter (BoringCache.matcher m)).
  - unfold BoringCache.delete. rewrite !scheduleWrite_data. simpl.
    by apply alike_data_delete.
  - unfold BoringCache.clear. rewrite !scheduleWrite_data. simpl.
    intros k. rewrite lookup_empty. constructor.
Qed.

(** Any number of calls of [get] and [list] leave the object and its
    environment as they were. *)
Lemma reads_leave_all (r : Revision) (trace : list (Z * Event V))
    (s : Cache V * Env V) :
  Forall (fun ev => is_read ev = true) trace -> run r trace s = s.
Proof.
  unfold run. induction 1 as [|[now ev] rest Hev _ IH]; simpl; [done|].
  unfold is_read in Hev. simpl in Hev. unfold step at 2. simpl.
  destruct ev as [[key|key v t|key|key v t|key m|key| |]|]; try done;
    simpl; by destruct s.
Qed.

(** C8: [get] and [list] return with the object and its environment exactly
    as they found them, however many of them are made; every call other than
    [save] treats the entries
    already stored without regard to the clock, which it reads only to stamp
    the entry it writes, and without regard to their [expires]: on two
    mappings that hold the same values at the same places it keeps the same
    entries, stale or not; [save] replaces every slot by what its sweep at
    the current time leaves of it. *)
Theorem reads_do_not_mutate (r : Revision) (now : Z) (c : Cache V) (e : Env V) :
  (forall key, (invoke r now (CallGet key) c e).2 = (c, e))
  /\ (forall key, (invoke r now (CallList key) c e).2 = (c, e))
  /\ (forall call delta,
        is_save call = false ->
        (invoke r (now + delta) (delayed delta call) c e).2
        = (invoke r now call c e).2)
  /\ (forall key,
        data (invoke r now CallSave c e).2.1 !! key
        = data c !! key ≫= swept now)
  /\ (forall call d1 d2,
        is_save call = false ->
        alike_data d1 d2 ->
        alike_data
          (data (invoke r now call (BoringCache.with_data d1 c) e).2.1)
          (data (invoke r now call (BoringCache.with_data d2 c) e).2.1))
  /\ (forall trace,
        Forall (fun ev => is_read ev = true) trace ->
        run r trace (c, e) = (c, e)).
Proof.
  split; [done|]. split; [done|]. split; [|split; [|split]].
  - intros call delta. apply clock_enters_through_stamp.
  - intros key. apply save_data.
  - intros call d1 d2. apply calls_ignore_expiry.
  - intros trace. apply reads_leave_all.
Qed.

End Frame.

(** [mixed_cache] and [unstamped_cache] hold the same values at the same
    places. *)
Lemma mixed_alike_unstamped :
  alike_data (data mixed_cache) (data unstamped_cache).
Proof.
  intros key. unfold mixed_cache, unstamped_cache. simpl.
  rewrite !lookup_insert, !lookup_singleton.
  repeat case_decide; repeat constructor.
Qed.

(** On [mixed_cache] at time [100]: reading the stale scalar ["b"] returns
    absent and leaves it stored; pushing at time [100], or at time [130]
    with a ttl shorter by [30], gives the same store; pulling the value [3],
    stale in [mixed_cache] and not in [unstamped_cache], leaves the two
    alike; [save] removes ["b"]. *)
Lemma reads_do_not_mutate_witness :
  BoringCache.get "b" 100 mixed_cache = None
  /\ data (invoke part_000 100 (CallGet "b") mixed_cache fresh_env).2.1 !! "b"
     = Some (Scalar (mkEntry 2 (Some 50)))
  /\ (invoke part_000 (100 + 30) (CallPush "n" 6 (Millis 20)) mixed_cache
        fresh_env).2
     = (invoke part_000 100 (CallPush "n" 6 (Millis 50)) mixed_cache
          fresh_env).2
  /\ data (invoke part_000 100 CallSave mixed_cache fresh_env).2.1 !! "b" = None
  /\ alike_data
       (data (invoke part_000 100 (CallPull "n" (Literal 4)) mixed_cache
                fresh_env).2.1)
       (data (invoke part_000 100 (CallPull "n" (Literal 4)) unstamped_cache
                fresh_env).2.1).
Proof.
  pose proof (reads_do_not_mutate part_000 100 mixed_cache fresh_env)
    as (Hget & _ & Hclock & Hsave & Halike & _).
  split; [vm_compute; reflexivity|]. split; [|split; [|split]].
  - rewrite (Hget "b"). vm_compute. reflexivity.
  - apply (Hclock (CallPush "n" 6 (Millis 50)) 30). reflexivity.
  - rewrite (Hsave "b"). vm_compute. reflexivity.
  - apply (Halike (CallPull "n" (Literal 4)) (data mixed_cache)
             (data unstamped_cache) eq_refl mixed_alike_unstamped).
Defined.

(** ** Round trip through the file *)

Section RoundTrip.

Context {V : Type}.

Lemma get_data (key : string) (t : Z) (c c' : Cache V) :
  data c = data c' -> BoringCache.get key t c = BoringCache.get key t c'.
Proof. unfold BoringCache.get. by intros ->. Qed.

Lemma list_data (key : string) (t : Z) (c c' : Cache V) :
  data c = data c' -> BoringCache.list key t c = BoringCache.list key t c'.
Proof. unfold BoringCache.list. by intros ->. Qed.

(** Where every entry is an own property of the data object (no write was
    made under the key ['__proto__'], which [save] would not see), a cache
    built on the file an earlier cache saved at time [s] holds the mapping
    that [save] left, and at every time [t] from [s] on answers [get] and
    [list], for every key, as the earlier cache does, before or after its
    [save]. *)
Lemma round_trip (s t : Z) (clock : nat -> Z) (c : Cache V) (e : Env V)
    (initial : list (string * V)) (t' : Ttl) :
  s <= t ->
  let saved := BoringCache.save s c e in
  exists c2 e2,
    Part000.constructor (path c) initial t' clock saved.2 = (Built c2, e2)
    /\ data c2 = data saved.1
    /\ forall key,
         BoringCache.get key t c2 = BoringCache.get key t saved.1
         /\ BoringCache.list key t c2 = BoringCache.list key t saved.1
         /\ BoringCache.get key t c2 = BoringCache.get key t c
         /\ BoringCache.list key t c2 = BoringCache.list key t c.
Proof.
  intros Hst saved. unfold Part000.constructor.
  unfold saved. rewrite save_file. fold saved.
  eexists. eexists. split; [reflexivity|]. split; [done|].
  intros key.
  assert (data (mkCache (path c) t' (data saved.1) None) = data saved.1)
    as Hd by done.
  rewrite (get_data key t _ _ Hd), (list_data key t _ _ Hd).
  split; [done|]. split; [done|].
  unfold saved. by rewrite get_after_save, list_after_save.
Qed.

End RoundTrip.

(** [mixed_cache] saved at time [100] and reopened: at time [120] the new
    cache answers [get('a')] with [1] and [list('n')] with [[4; 5]]. *)
Lemma round_trip_witness :
  exists c2 e2,
    Part000.constructor "cache.json" [] Infinity (steady 110)
      (BoringCache.save 100 mixed_cache fresh_env).2 = (Built c2, e2)
    /\ BoringCache.get "a" 120 c2 = Some 1
    /\ BoringCache.list "n" 120 c2 = [4; 5].
Proof.
  assert (100 <= 120) as Hst by lia.
  destruct (round_trip 100 120 (steady 110) mixed_cache fresh_env [] Infinity
              Hst)
    as (c2 & e2 & Hbuilt & _ & Hread).
  exists c2, e2. split; [exact Hbuilt|].
  destruct (Hread "a") as (_ & _ & -> & _).
  destruct (Hread "n") as (_ & _ & _ & ->).
  vm_compute. split; reflexivity.
Defined.

(** ** Entries whose [expires] is [0] *)

Section ZeroExpiry.

Context {V : Type}.

Lemma live_zero (now : Z) (item : CacheEntry V) :
  expires item = Some 0 -> live now item = true.
Proof. intros Hz. apply live_spec. by right; left. Qed.

Lemma outdated_zero (now : Z) (item : CacheEntry V) :
  expires item = Some 0 -> outdated now item = false.
Proof. intros Hz. unfold outdated. by rewrite Hz. Qed.

(** C10: an entry whose [expires] is [0] is returned by [get], when it is
    the scalar of its key, and listed by [list], when it is an element of
    the list of its key, at every time; and [save] at any time keeps it where
    it is. *)
Theorem zero_expiry_never_expires (key : string) (item : CacheEntry V)
    (now : Z) (c : Cache V) (e : Env V) :
  expires item = Some 0 ->
  (data c !! key = Some (Scalar item) ->
     BoringCache.get key now c = Some (value item)
     /\ data (BoringCache.save now c e).1 !! key = Some (Scalar item))
  /\ (forall items,
        data c !! key = Some (Items items) -> item ∈ items ->
        value item ∈ BoringCache.list key now c
        /\ exists kept,
             data (BoringCache.save now c e).1 !! key = Some (Items kept)
             /\ item ∈ kept).
Proof.
  intros Hz. split.
  - intros Hslot. split.
    + unfold BoringCache.get. by rewrite Hslot, (live_zero now item Hz).
    + rewrite save_data, Hslot. simpl. by rewrite (outdated_zero now item Hz).
  - intros items Hslot Hin.
    assert (item ∈ List.filter (live now) items) as Hkept.
    { apply list_elem_of_In, filter_In. split; [by apply list_elem_of_In|].
      by apply live_zero. }
    split.
    + unfold BoringCache.list. rewrite Hslot.
      apply list_elem_of_fmap. by exists item.
    + rewrite save_data, Hslot. simpl.
      destruct (Nat.eqb _ 0) eqn:Hlen.
      * apply Nat.eqb_eq, nil_length_inv in Hlen. rewrite Hlen in Hkept.
        by apply elem_of_nil in Hkept.
      * by eexists.
Qed.

End ZeroExpiry.

(** The list element of [boundary_cache] with [expires: 0] is listed at time
    [5000] and is still in the list after a [save] at that time. *)
Lemma zero_expiry_never_expires_witness :
  2 ∈ BoringCache.list "b" 5000 boundary_cache
  /\ exists kept,
       data (BoringCache.save 5000 boundary_cache fresh_env).1 !! "b"
       = Some (Items kept)
       /\ mkEntry 2 (Some 0) ∈ kept.
Proof.
  apply (proj2 (zero_expiry_never_expires "b" (mkEntry 2 (Some 0)) 5000
                  boundary_cache fresh_env eq_refl)
           [mkEntry 2 (Some 0)]).
  - vm_compute. reflexivity.
  - constructor.
Defined.

(** * Further properties of the methods *)

(** ** Facts about lists used below *)

Section ListFacts.

Context {A B : Type}.

Lemma filter_is_sublist (f : A -> bool) (l : list A) :
  sublist (List.filter f l) l.
Proof.
  induction l as [|x xs IH]; simpl; [constructor|].
  destruct (f x); by constructor.
Qed.

Lemma filter_swap (f g : A -> bool) (l : list A) :
  List.filter f (List.filter g l) = List.filter g (List.filter f l).
Proof.
  induction l as [|x xs IH]; simpl; [done|].
  destruct (g x) eqn:Hg, (f x) eqn:Hf; simpl; rewrite ?Hg, ?Hf, IH; done.
Qed.

Lemma filter_twice (f : A -> bool) (l : list A) :
  List.filter f (List.filter f l) = List.filter f l.
Proof.
  induction l as [|x xs IH]; simpl; [done|].
  destruct (f x) eqn:Hf; simpl; rewrite ?Hf, IH; done.
Qed.

Lemma filter_of_map (f : B -> bool) (g : A -> B) (l : list A) :
  List.filter f (map g l) = map g (List.filter (fun x => f (g x)) l).
Proof.
  induction l as [|x xs IH]; simpl; [done|].
  destruct (f (g x)); simpl; by rewrite IH.
Qed.

Lemma filter_split (f : A -> bool) (l : list A) :
  List.filter (fun x => negb (f x)) l ++ List.filter f l ≡ₚ l.
Proof.
  induction l as [|x xs IH]; simpl; [done|].
  destruct (f x); simpl.
  - rewrite <- Permutation_middle. by constructor.
  - by constructor.
Qed.

End ListFacts.

(** ** What a call leaves of the object *)

Section CallEffects.

Context {V : Type} `{EqDecision V}.

Lemma scheduleWrite_path (c : Cache V) (e : Env V) :
  path (BoringCache.scheduleWrite c e).1 = path c.
Proof. unfold BoringCache.scheduleWrite. by destruct (writeDebounceTimer c). Qed.

Lemma delete_data (key : string) (c : Cache V) (e : Env V) :
  data (BoringCache.delete key c e).1 = base.delete key (data c).
Proof. unfold BoringCache.delete. by rewrite scheduleWrite_data. Qed.

Lemma clear_data (c : Cache V) (e : Env V) :
  data (BoringCache.clear c e).1 = ∅.
Proof. unfold BoringCache.clear. by rewrite scheduleWrite_data. Qed.

(** The data [pull] leaves, in either revision. *)
Lemma pull_data (r : Revision) (key : string) (m : ValuePredicate V)
    (c : Cache V) (e : Env V) :
  data (pull r key m c e).1
  = match data c !! key with
    | Some (Items items) =>
        <[key := Items (List.filter
                          (fun item =>
                             match r with
                             | part_000 => negb (BoringCache.matcher m (value item))
                             | part_001 => BoringCache.matcher m (value item)
                             end) items)]> (data c)
    | _ => data c
    end.
Proof.
  destruct r; simpl; unfold Part000.pull, Part001.pull;
    (destruct (data c !! key) as [[entry|items]|]; [done| |done]);
    by rewrite scheduleWrite_data.
Qed.

Lemma invoke_path (r : Revision) (now : Z) (call : Call V)
    (c : Cache V) (e : Env V) :
  path (invoke r now call c e).2.1 = path c.
Proof.
  destruct call as [key|key v t|key|key v t|key m|key| |]; simpl; try done;
    try (unfold BoringCache.set, BoringCache.push, BoringCache.delete,
           BoringCache.clear; by rewrite scheduleWrite_path).
  destruct r; simpl; unfold Part000.pull, Part001.pull;
    (destruct (data c !! key) as [[entry|items]|]; [done| |done]);
    by rewrite scheduleWrite_path.
Qed.

Lemma run_path (r : Revision) (trace : list (Z * Event V))
    (s : Cache V * Env V) :
  path (run r trace s).1 = path s.1.
Proof.
  revert s. unfold run.
  induction trace as [|[now ev] rest IH]; intros s; simpl; [done|].
  rewrite IH. unfold step; simpl. destruct ev as [call|].
  - apply invoke_path.
  - unfold BoringCache.runImmediate. by destruct (immediates s.2).
Qed.

End CallEffects.

(** ** [set], [push], [delete], [clear] and what is read after them *)

Section WriteThenRead.

Context {V : Type} `{EqDecision V}.

(** [save] keeps a scalar whose [expires] is absent. *)
Lemma save_keeps_unstamped (key : string) (entry : CacheEntry V) (now : Z)
    (c : Cache V) (e : Env V) :
  data c !! key = Some (Scalar entry) -> expires entry = None ->
  data (BoringCache.save now c e).1 !! key = Some (Scalar entry).
Proof.
  intros Hslot Hexp. rewrite save_data, Hslot. simpl.
  unfold outdated. by rewrite Hexp.
Qed.

(** X1: a value set without a ttl replaces whatever the key held, a list
    included; [get] returns it at every time, whatever calls of [save] were
    made and whenever, and [list] on the key is empty. *)
Theorem set_forever (key : string) (v : V) (w t : Z) (times : list Z)
    (c : Cache V) (e : Env V) :
  let stored := BoringCache.set key v Infinity w c e in
  BoringCache.get key t stored.1 = Some v
  /\ BoringCache.get key t (saves times stored).1 = Some v
  /\ BoringCache.list key t stored.1 = []
  /\ BoringCache.list key t (saves times stored).1 = [].
Proof.
  intros stored.
  assert (forall s : Cache V * Env V,
            data s.1 !! key = Some (Scalar (mkEntry v None)) ->
            data (saves times s).1 !! key = Some (Scalar (mkEntry v None)))
    as Hkept.
  { unfold saves. induction times as [|now rest IH]; intros s Hs; simpl; [done|].
    apply IH. by apply save_keeps_unstamped. }
  assert (data stored.1 !! key = Some (Scalar (mkEntry v None))) as Hnow.
  { unfold stored. rewrite set_data. apply lookup_insert_eq. }
  pose proof (Hkept stored Hnow) as Hlater.
  unfold BoringCache.get, BoringCache.list. by rewrite Hnow, Hlater.
Qed.

(** X2: a value pushed without a ttl is listed last, after what [list]
    returned before; the key then holds a list, so [get] on it is absent,
    also when it held a live scalar. *)
Theorem push_appends (key : string) (v : V) (w t : Z)
    (c : Cache V) (e : Env V) :
  let pushed := BoringCache.push key v Infinity w c e in
  BoringCache.list key t pushed.1 = BoringCache.list key t c ++ [v]
  /\ BoringCache.get key t pushed.1 = None.
Proof.
  intros pushed. unfold BoringCache.list, BoringCache.get, pushed.
  rewrite push_data, lookup_insert_eq. split; [|done].
  rewrite List.filter_app, map_app. simpl.
  by destruct (data c !! key) as [[entry|items]|].
Qed.

(** X3: a call that names a key other than ['__proto__'] changes no other
    key: [set], [push], [pull], [delete], [get] and [list] on [key] leave the
    slot of every other key, and what is read under it, as it was. *)
Theorem calls_are_local (r : Revision) (now : Z) (call : Call V)
    (c : Cache V) (e : Env V) (key other : string) :
  key <> "__proto__" ->
  target call = Some key -> other <> key ->
  data (invoke r now call c e).2.1 !! other = data c !! other
  /\ BoringCache.get other now (invoke r now call c e).2.1
     = BoringCache.get other now c
  /\ BoringCache.list other now (invoke r now call c e).2.1
     = BoringCache.list other now c.
Proof.
  intros _ Htarget Hne.
  assert (data (invoke r now call c e).2.1 !! other = data c !! other) as Hd.
  { destruct call as [k|k v t|k|k v t|k m|k| |]; simpl in *;
      try done; injection Htarget as ->.
    - by rewrite set_data, lookup_insert_ne.
    - by rewrite push_data, lookup_insert_ne.
    - rewrite pull_data.
      destruct (data c !! key) as [[entry|items]|]; [done| |done].
      by rewrite lookup_insert_ne.
    - by rewrite delete_data, lookup_delete_ne. }
  unfold BoringCache.get, BoringCache.list. by rewrite Hd.
Qed.


(** X5: after [clear()] every [get] is absent and every [list] is empty, and
    the next [save] writes the empty mapping to the file. *)
Theorem clear_then_read (key : string) (t now : Z) (c : Cache V) (e : Env V) :
  let cleared := BoringCache.clear c e in
  BoringCache.get key t cleared.1 = None
  /\ BoringCache.list key t cleared.1 = []
  /\ written (BoringCache.save now cleared.1 cleared.2).2 (path c) = Some ∅.
Proof.
  intros cleared. unfold BoringCache.get, BoringCache.list, cleared.
  rewrite clear_data, lookup_empty. split; [done|]. split; [done|].
  unfold written.
  assert (path (BoringCache.clear c e).1 = path c) as <-
    by (unfold BoringCache.clear; by rewrite scheduleWrite_path).
  rewrite save_file. f_equal. apply save_empty, clear_data.
Qed.

End WriteThenRead.


(** On [mixed_cache], [push('n', 9)] changes neither ["a"] nor its reads. *)
Lemma calls_are_local_witness :
  BoringCache.get "a" 100
    (invoke part_000 100 (CallPush "n" 9 Infinity) mixed_cache fresh_env).2.1
  = BoringCache.get "a" 100 mixed_cache.
Proof.
  refine (proj1 (proj2 (calls_are_local part_000 100 (CallPush "n" 9 Infinity)
                          mixed_cache fresh_env "n" "a" _ eq_refl _)));
    discriminate.
Defined.

(** ** More on [pull] *)

Section PullMore.

Context {V : Type} `{EqDecision V}.

Lemma list_after_pull (r : Revision) (key : string) (m : ValuePredicate V)
    (t : Z) (c : Cache V) (e : Env V) :
  BoringCache.list key t (pull r key m c e).1
  = List.filter (fun x => match r with
                          | part_000 => negb (BoringCache.matcher m x)
                          | part_001 => BoringCache.matcher m x
                          end)
      (BoringCache.list key t c).
Proof.
  unfold BoringCache.list. rewrite pull_data.
  destruct (data c !! key) as [[entry|items]|] eqn:Hd; rewrite ?Hd; try done.
  rewrite lookup_insert_eq, filter_of_map. f_equal. apply filter_swap.
Qed.

(** X7: what [list] returns after [pull] is what it returned before, filtered
    by the matcher: [part_000] keeps the values the matcher rejects,
    [part_001] the values it accepts, both in the order they had. *)
Theorem pull_filters_list (key : string) (m : ValuePredicate V) (t : Z)
    (c : Cache V) (e : Env V) :
  BoringCache.list key t (Part000.pull key m c e).1
  = List.filter (fun x => negb (BoringCache.matcher m x))
      (BoringCache.list key t c)
  /\ BoringCache.list key t (Part001.pull key m c e).1
     = List.filter (BoringCache.matcher m) (BoringCache.list key t c).
Proof.
  split.
  - apply (list_after_pull part_000).
  - apply (list_after_pull part_001).
Qed.

(** X8: pulling twice with the same matcher leaves the same mapping as
    pulling once, in either revision. *)
Theorem pull_idempotent (r : Revision) (key : string) (m : ValuePredicate V)
    (c : Cache V) (e e' : Env V) :
  data (pull r key m (pull r key m c e).1 e').1 = data (pull r key m c e).1.
Proof.
  rewrite (pull_data r key m (pull r key m c e).1 e'), pull_data.
  destruct (data c !! key) as [[entry|items]|] eqn:Hd; rewrite ?Hd; try done.
  rewrite lookup_insert_eq, insert_insert_eq. by rewrite filter_twice.
Qed.

(** X9: on a list slot the two revisions of [pull] split the list between
    them: what [part_000] keeps and what [part_001] keeps are, together, the
    entries the list had, each kept by exactly one of the two. *)
Theorem pull_revisions_split (key : string) (m : ValuePredicate V)
    (c : Cache V) (e : Env V) (items : list (CacheEntry V)) :
  data c !! key = Some (Items items) ->
  exists rejected accepted,
    data (Part000.pull key m c e).1 !! key = Some (Items rejected)
    /\ data (Part001.pull key m c e).1 !! key = Some (Items accepted)
    /\ rejected ++ accepted ≡ₚ items
    /\ (length rejected + length accepted = length items)%nat.
Proof.
  intros Hslot.
  exists (List.filter (fun item => negb (BoringCache.matcher m (value item))) items),
         (List.filter (fun item => BoringCache.matcher m (value item)) items).
  pose proof (pull_data part_000 key m c e) as H0.
  pose proof (pull_data part_001 key m c e) as H1.
  simpl in H0, H1. rewrite Hslot in H0, H1.
  rewrite H0, H1, !lookup_insert_eq. split; [done|]. split; [done|].
  pose proof (filter_split (fun item => BoringCache.matcher m (value item)) items)
    as Hperm.
  split; [exact Hperm|].
  rewrite <- length_app. by rewrite Hperm.
Qed.

(** X10: after [pull(key, v)] with a value [v], [part_000] lists [v] no more
    under the key, at any time; after the same call [part_001] lists nothing
    but [v]. *)
Theorem pull_literal (key : string) (v : V) (t : Z) (c : Cache V) (e : Env V) :
  (v ∉ BoringCache.list key t (Part000.pull key (Literal v) c e).1)
  /\ (forall x,
        x ∈ BoringCache.list key t (Part001.pull key (Literal v) c e).1 ->
        x = v).
Proof.
  pose proof (list_after_pull part_000 key (Literal v) t c e) as H0.
  pose proof (list_after_pull part_001 key (Literal v) t c e) as H1.
  simpl in H0, H1. rewrite H0, H1. split.
  - intros Hin%list_elem_of_In%filter_In. destruct Hin as [_ Hrej].
    by rewrite bool_decide_eq_true_2 in Hrej.
  - intros x Hin%list_elem_of_In%filter_In. destruct Hin as [_ Hacc].
    by apply bool_decide_eq_true in Hacc.
Qed.

End PullMore.

(** On the list ["n"] of [mixed_cache], pulling the values above [3]: one
    entry goes to [part_000], two to [part_001]. *)
Lemma pull_revisions_split_witness :
  exists rejected accepted,
    data (Part000.pull "n" (Predicate (fun x => 3 <? x)) mixed_cache fresh_env).1
      !! "n" = Some (Items rejected)
    /\ data (Part001.pull "n" (Predicate (fun x => 3 <? x)) mixed_cache fresh_env).1
         !! "n" = Some (Items accepted)
    /\ rejected ++ accepted ≡ₚ
         [mkEntry 3 (Some 50); mkEntry 4 None; mkEntry 5 (Some 150)]
    /\ (length rejected + length accepted = 3)%nat.
Proof.
  apply (pull_revisions_split "n" (Predicate (fun x => 3 <? x)) mixed_cache
           fresh_env [mkEntry 3 (Some 50); mkEntry 4 None; mkEntry 5 (Some 150)]).
  vm_compute. reflexivity.
Defined.

(** ** More on [save] *)

Section SaveMore.

Context {V : Type} `{EqDecision V}.

Lemma outdated_later (s t : Z) (entry : CacheEntry V) :
  s <= t -> outdated s entry = true -> outdated t entry = true.
Proof.
  intros Hst (x & Hx & Hnz & Hlt)%outdated_spec.
  apply outdated_spec. exists x. split; [done|]. split; [done | lia].
Qed.

Lemma live_not_outdated (now : Z) (entry : CacheEntry V) :
  live now entry = true -> outdated now entry = false.
Proof.
  intros Hlive. apply not_true_is_false.
  intros (x & Hx & Hnz & Hlt)%outdated_spec.
  apply live_spec in Hlive as [?|[?|(y & ? & ?)]]; [congruence | congruence |].
  assert (y = x) by congruence. lia.
Qed.

(** Sweeping at [s] and then at a later [t] is sweeping at [t]. *)
Lemma swept_twice (s t : Z) (slot : Slot V) :
  s <= t -> swept s slot ≫= swept t = swept t slot.
Proof.
  intros Hst. destruct slot as [entry|items]; simpl.
  - destruct (outdated s entry) eqn:Hs; simpl; [|done].
    by rewrite (outdated_later s t entry Hst Hs).
  - destruct (Nat.eqb (length (List.filter (live s) items)) 0) eqn:Hlen; simpl.
    + apply Nat.eqb_eq, nil_length_inv in Hlen.
      by rewrite <- (filter_live_earlier s t items Hst), Hlen.
    + by rewrite filter_live_earlier.
Qed.

(** X11: a [save] at time [s] followed by a [save] at a later time [t]
    leaves the mapping a single [save] at [t] leaves; in particular saving
    twice at the same time changes nothing the second time. *)
Theorem save_then_save (s t : Z) (c : Cache V) (e e' e'' : Env V) :
  s <= t ->
  data (BoringCache.save t (BoringCache.save s c e).1 e').1
  = data (BoringCache.save t c e'').1.
Proof.
  intros Hst. apply map_eq. intros k. rewrite !save_data.
  destruct (data c !! k) as [slot|]; simpl; [|done].
  by apply swept_twice.
Qed.

(** X12: [save] invents nothing and loses nothing live: every entry of the
    mapping it leaves was stored under the same key before, and every entry
    stored before that is live at the time of the [save] is still stored
    under its key. *)
Theorem save_keeps_live (now : Z) (c : Cache V) (e : Env V) (key : string)
    (item : CacheEntry V) :
  (holds (data (BoringCache.save now c e).1) key item ->
   holds (data c) key item)
  /\ (holds (data c) key item -> live now item = true ->
      holds (data (BoringCache.save now c e).1) key item).
Proof.
  unfold holds. rewrite save_data. split.
  - destruct (data c !! key) as [[entry|items]|]; simpl.
    + destruct (outdated now entry); intros [?|(l & ? & ?)]; try done.
      by left.
    + destruct (Nat.eqb _ 0); intros [?|(l & Hl & Hin)]; try done.
      injection Hl as <-. right. exists items. split; [done|].
      by apply list_elem_of_In, filter_In in Hin as [?%list_elem_of_In _].
    + intros [?|(l & ? & ?)]; done.
  - intros [Hs|(l & Hl & Hin)] Hlive.
    + rewrite Hs. simpl. rewrite (live_not_outdated now item Hlive). by left.
    + rewrite Hl. simpl.
      assert (item ∈ List.filter (live now) l) as Hkept.
      { apply list_elem_of_In, filter_In. by split; [apply list_elem_of_In|]. }
      destruct (Nat.eqb _ 0) eqn:Hlen.
      * apply Nat.eqb_eq, nil_length_inv in Hlen. rewrite Hlen in Hkept.
        by apply elem_of_nil in Hkept.
      * right. by eexists.
Qed.

(** X13: no call but [save] touches the file system, and [save] writes the
    file of the cache and no other. *)
Theorem only_save_writes (r : Revision) (now : Z) (call : Call V)
    (c : Cache V) (e : Env V) :
  (is_save call = false -> files (invoke r now call c e).2.2 = files e)
  /\ (forall p, p <> path c ->
        files (BoringCache.save now c e).2 !! p = files e !! p).
Proof.
  split.
  - intros Hcall.
    destruct call as [key|key v t|key|key v t|key m|key| |]; simpl; try done;
      try (unfold BoringCache.set, BoringCache.push, BoringCache.delete,
             BoringCache.clear; by rewrite scheduleWrite_files).
    destruct r; simpl; unfold Part000.pull, Part001.pull;
      (destruct (data c !! key) as [[entry|items]|]; [done| |done]);
      by rewrite scheduleWrite_files.
  - intros p Hp. unfold BoringCache.save, BoringCache.outputJSONSync; simpl.
    rewrite lookup_insert_ne by done.
    by destruct (writeDebounceTimer c).
Qed.

(** X14: a scalar whose [expires] is the current time, not [0], is absent
    for [get] at that time, yet a [save] at that time keeps it in memory and
    in the file; a [save] at any later time removes the key. *)
Theorem scalar_at_its_expiry (key : string) (entry : CacheEntry V) (now : Z)
    (c : Cache V) (e : Env V) :
  data c !! key = Some (Scalar entry) ->
  expires entry = Some now -> now <> 0 ->
  BoringCache.get key now c = None
  /\ data (BoringCache.save now c e).1 !! key = Some (Scalar entry)
  /\ (exists d, written (BoringCache.save now c e).2 (path c) = Some d
                /\ d !! key = Some (Scalar entry))
  /\ (forall later, now < later ->
        data (BoringCache.save later c e).1 !! key = None).
Proof.
  intros Hslot Hexp Hnz.
  assert (live now entry = false) as Hdead.
  { apply not_true_is_false. rewrite live_spec, Hexp.
    intros [?|[[= ?]|(y & [= <-] & ?)]]; [done | done | lia]. }
  assert (outdated now entry = false) as Hkeep.
  { apply not_true_is_false. rewrite outdated_spec, Hexp.
    intros (y & [= <-] & _ & ?). lia. }
  split; [|split; [|split]].
  - unfold BoringCache.get. by rewrite Hslot, Hdead.
  - rewrite save_data, Hslot. simpl. by rewrite Hkeep.
  - eexists. unfold written. rewrite save_file. split; [done|].
    rewrite save_data, Hslot. simpl. by rewrite Hkeep.
  - intros later Hlater. rewrite save_data, Hslot. simpl.
    assert (outdated later entry = true) as ->; [|done].
    apply outdated_spec. by exists now.
Qed.

(** X15: reads only lose entries as time passes: a value [get] returns at
    time [t] it returns at every earlier time, and what [list] returns at [t]
    is a subsequence of what it returns at any earlier time. *)
Theorem reads_shrink_with_time (key : string) (s t : Z) (c : Cache V) :
  s <= t ->
  (forall v, BoringCache.get key t c = Some v -> BoringCache.get key s c = Some v)
  /\ sublist (BoringCache.list key t c) (BoringCache.list key s c).
Proof.
  intros Hst. unfold BoringCache.get, BoringCache.list.
  destruct (data c !! key) as [[entry|items]|]; simpl;
    [|split; [done|] | by split].
  - split; [|done]. intros v.
    destruct (live t entry) eqn:Ht; [|done].
    by rewrite (live_earlier s t entry Hst Ht).
  - rewrite <- (filter_live_earlier s t items Hst).
    apply (fmap_sublist value), filter_is_sublist.
Qed.

End SaveMore.

(** [mixed_cache] saved at [100] and again at [160], against once at [160]. *)
Lemma save_then_save_witness :
  data (BoringCache.save 160 (BoringCache.save 100 mixed_cache fresh_env).1
          fresh_env).1
  = data (BoringCache.save 160 mixed_cache fresh_env).1.
Proof.
  apply (save_then_save 100 160 mixed_cache fresh_env fresh_env fresh_env).
  lia.
Defined.

(** The scalar ["a"] of [boundary_cache] expires at [100]: absent for [get]
    at [100], kept by a [save] at [100], gone after a [save] at [101]. *)
Lemma scalar_at_its_expiry_witness :
  BoringCache.get "a" 100 boundary_cache = None
  /\ data (BoringCache.save 100 boundary_cache fresh_env).1 !! "a"
     = Some (Scalar (mkEntry 1 (Some 100)))
  /\ data (BoringCache.save 101 boundary_cache fresh_env).1 !! "a" = None.
Proof.
  assert (data boundary_cache !! "a" = Some (Scalar (mkEntry 1 (Some 100))))
    as Hslot by (vm_compute; reflexivity).
  assert (100 <> 0) as Hnz by lia.
  destruct (scalar_at_its_expiry "a" (mkEntry 1 (Some 100)) 100 boundary_cache
              fresh_env Hslot eq_refl Hnz) as (Hget & Hkept & _ & Hgone).
  split; [exact Hget|]. split; [exact Hkept|]. apply Hgone. lia.
Defined.

(** On [mixed_cache], what is listed under ["n"] at [200] was listed at [100]. *)
Lemma reads_shrink_with_time_witness :
  sublist (BoringCache.list "n" 200 mixed_cache)
          (BoringCache.list "n" 100 mixed_cache).
Proof.
  refine (proj2 (reads_shrink_with_time "n" 100 200 mixed_cache _)). lia.
Defined.

(** ** Write-back at exit and at the next turn of the event loop *)

Section Flush.

Context {V : Type} `{EqDecision V}.

Lemma scheduleWrite_timer (c : Cache V) (e : Env V) :
  is_Some (writeDebounceTimer (BoringCache.scheduleWrite c e).1).
Proof.
  unfold BoringCache.scheduleWrite.
  destruct (writeDebounceTimer c) as [h|] eqn:Ht; simpl; by eauto.
Qed.

Lemma invoke_timer (r : Revision) (now : Z) (call : Call V)
    (c : Cache V) (e : Env V) :
  schedules call c = true ->
  is_Some (writeDebounceTimer (invoke r now call c e).2.1).
Proof.
  intros Hcall.
  destruct call as [key|key v t|key|key v t|key m|key| |]; simpl in *;
    try done; try apply scheduleWrite_timer.
  destruct r; simpl; unfold Part000.pull, Part001.pull;
    (destruct (data c !! key) as [[entry|items]|]; [done| |done]);
    apply scheduleWrite_timer.
Qed.

(** X16: when the process exits right after a call that schedules a
    write-back, the ['exit'] listener saves: the file then holds the mapping
    left in memory, no write-back is waiting, and a cache holding what the
    file holds answers every read from the time of the exit on as the object
    did after the call. *)
Theorem exit_flushes (r : Revision) (now exit_time : Z) (call : Call V)
    (c : Cache V) (e : Env V) :
  schedules call c = true ->
  let s := (invoke r now call c e).2 in
  let s' := BoringCache.onExit exit_time s.1 s.2 in
  writeDebounceTimer s'.1 = None
  /\ written s'.2 (path c) = Some (data s'.1)
  /\ forall key t, exit_time <= t ->
       BoringCache.get key t s'.1 = BoringCache.get key t s.1
       /\ BoringCache.list key t s'.1 = BoringCache.list key t s.1.
Proof.
  intros Hcall s s'.
  destruct (invoke_timer r now call c e Hcall) as [h Hh]. fold s in Hh.
  assert (s' = BoringCache.save exit_time s.1 s.2) as ->.
  { unfold s', BoringCache.onExit. by rewrite Hh. }
  split; [done|]. split.
  - unfold written.
    assert (path s.1 = path c) as <- by apply invoke_path.
    by rewrite save_file.
  - intros key t Ht. by rewrite get_after_save, list_after_save.
Qed.

(** X17: however many calls were made since the event loop last ran, one
    turn of the loop empties the queue: the write-back runs once, the file
    holds the mapping left in memory, and a further turn finds nothing to
    run and changes nothing. *)
Theorem burst_is_one_write (r : Revision) (trace : list (Z * Event V))
    (now now' : Z) (c : Cache V) (e : Env V) :
  pending_ok c e ->
  let s := run r trace (c, e) in
  let s1 := BoringCache.runImmediate now s.1 s.2 in
  immediates s1.2 = []
  /\ writeDebounceTimer s1.1 = None
  /\ BoringCache.runImmediate now' s1.1 s1.2 = s1
  /\ (is_Some (writeDebounceTimer s.1) ->
      written s1.2 (path c) = Some (data s1.1)).
Proof.
  intros Hq s s1.
  assert (pending_ok s.1 s.2) as Hs by (by apply (run_pending_ok r trace (c, e))).
  assert (path s.1 = path c) as Hpath by apply (run_path r trace (c, e)).
  unfold pending_ok in Hs. unfold s1, BoringCache.runImmediate.
  destruct (immediates s.2) as [|h rest] eqn:Himm.
  - destruct (writeDebounceTimer s.1) as [h'|] eqn:Ht; [done|].
    simpl. rewrite Himm. split; [done|]. split; [done|]. split; [done|].
    by intros [? ?].
  - destruct (writeDebounceTimer s.1) as [h'|] eqn:Ht; [|done].
    injection Hs as -> ->.
    set (env := mkEnv (files s.2) [] (next_immediate s.2) (exit_listeners s.2)).
    assert (immediates (BoringCache.save now s.1 env).2 = []) as Hempty.
    { unfold BoringCache.save. rewrite Ht. done. }
    rewrite Hempty. split; [done|]. split; [done|].
    split; [by destruct (BoringCache.save now s.1 env)|].
    intros _. unfold written. rewrite <- Hpath. by rewrite save_file.
Qed.

End Flush.

(** [set('a', 7)] on [mixed_cache], then exit at [100]: the file has ["a"]. *)
Lemma exit_flushes_witness :
  let s := (invoke part_000 90 (CallSet "a" 7 Infinity) mixed_cache fresh_env).2 in
  let s' := BoringCache.onExit 100 s.1 s.2 in
  written s'.2 "cache.json" = Some (data s'.1)
  /\ BoringCache.get "a" 100 s'.1 = Some 7.
Proof.
  intros s s'.
  destruct (exit_flushes part_000 90 100 (CallSet "a" 7 Infinity) mixed_cache
              fresh_env eq_refl) as (_ & Hfile & Hread).
  split; [exact Hfile|].
  assert (100 <= 100) as Hle by lia.
  destruct (Hread "a" 100 Hle) as [Hget _].
  unfold s', s. rewrite Hget. vm_compute. reflexivity.
Defined.

(** After the three calls of [burst], one turn of the loop empties the queue
    and writes the file. *)
Lemma burst_is_one_write_witness :
  let s := run part_000 burst (empty_cache, fresh_env) in
  let s1 := BoringCache.runImmediate 12 s.1 s.2 in
  immediates s1.2 = []
  /\ written s1.2 "cache.json" = Some (data s1.1).
Proof.
  intros s s1.
  assert (pending_ok empty_cache fresh_env) as Hq by reflexivity.
  destruct (burst_is_one_write part_000 burst 12 13 empty_cache fresh_env Hq)
    as (Hempty & _ & _ & Hfile).
  split; [exact Hempty|]. apply Hfile. vm_compute. eauto.
Defined.

(** ** The [save] and [get] of [index.ts] *)

Section IndexRevision.

Context {V : Type}.

Lemma index_sweep_agrees (now : Z) (d : gmap string (Slot V)) (key : string) :
  scalars_only d -> Index.sweep now d key = BoringCache.sweep now d key.
Proof.
  intros Hd. unfold Index.sweep, BoringCache.sweep.
  destruct (d !! key) as [[entry|items]|] eqn:Hk; try done.
  by destruct (Hd key items).
Qed.

Lemma sweep_scalars_only (now : Z) (d : gmap string (Slot V)) (key : string) :
  scalars_only d -> scalars_only (BoringCache.sweep now d key).
Proof.
  intros Hd k items. rewrite sweep_lookup.
  destruct (decide (k = key)) as [->|_]; [|apply Hd].
  destruct (d !! key) as [[entry|l]|] eqn:Hk; simpl; [| |done].
  - by destruct (outdated now entry).
  - by destruct (Hd key l).
Qed.

Lemma index_loop_agrees (now : Z) (ks : list string) :
  forall d : gmap string (Slot V),
    scalars_only d ->
    foldl (Index.sweep now) d ks = foldl (BoringCache.sweep now) d ks.
Proof.
  induction ks as [|key rest IH]; intros d Hd; simpl; [done|].
  rewrite index_sweep_agrees by done.
  apply IH. by apply sweep_scalars_only.
Qed.

Lemma index_loop_keeps_lists (now : Z) (ks : list string) (key : string)
    (items : list (CacheEntry V)) :
  forall d : gmap string (Slot V),
    d !! key = Some (Items items) ->
    foldl (Index.sweep now) d ks !! key = Some (Items items).
Proof.
  induction ks as [|k rest IH]; intros d Hd; simpl; [done|].
  apply IH. unfold Index.sweep.
  destruct (d !! k) as [[entry|l]|] eqn:Hk; [|done|].
  - destruct (outdated now entry); [|done].
    rewrite lookup_delete_ne; [done | congruence].
  - rewrite lookup_delete_ne; [done | congruence].
Qed.

(** X18: on a mapping of scalars, which is all [index.ts] can create, the
    [save] of [index.ts] does exactly what the [save] of the later revisions
    does; on a mapping with lists it leaves every list as it is, stale
    elements included; and its [get] answers as the later [get] does on
    every mapping. *)
Theorem index_revision_agrees (now : Z) (c : Cache V) (e : Env V) :
  (scalars_only (data c) -> Index.save now c e = BoringCache.save now c e)
  /\ (forall key items,
        data c !! key = Some (Items items) ->
        data (Index.save now c e).1 !! key = Some (Items items))
  /\ (forall key t, Index.get key t c = BoringCache.get key t c).
Proof.
  split; [|split].
  - intros Hd. unfold Index.save, BoringCache.save.
    by rewrite index_loop_agrees.
  - intros key items Hk. by apply index_loop_keeps_lists.
  - done.
Qed.

End IndexRevision.

(** [index.ts] saving [mixed_cache] at [100] keeps the whole list ["n"],
    whose first element expired at [50]. *)
Lemma index_revision_agrees_witness :
  data (Index.save 100 mixed_cache fresh_env).1 !! "n"
  = Some (Items [mkEntry 3 (Some 50); mkEntry 4 None; mkEntry 5 (Some 150)]).
Proof.
  apply (proj1 (proj2 (index_revision_agrees 100 mixed_cache fresh_env))).
  vm_compute. reflexivity.
Defined.

(** ** More on construction *)

Section ConstructionMore.

Context {V : Type}.

(** X19: the initial data and the ttl given to the constructor of [part_000]
    count only while the file is missing: a second construction on the file
    the first one wrote loads the mapping the first one left, whatever
    initial data it is given, and writes nothing. *)
Theorem initial_data_used_once (p : string) (initial initial' : list (string * V))
    (t t' : Ttl) (clock clock' : nat -> Z) (e : Env V) :
  files e !! p = None ->
  exists c1 e1 c2 e2,
    Part000.constructor p initial t clock e = (Built c1, e1)
    /\ Part000.constructor p initial' t' clock' e1 = (Built c2, e2)
    /\ data c2 = data c1
    /\ files e2 = files e1
    /\ writeDebounceTimer c2 = None.
Proof.
  intros Hfile. unfold Part000.constructor at 1. rewrite Hfile.
  set (c0 := Part000.seed initial t clock 0 (mkCache p t ∅ None)).
  destruct (seed_fields initial t clock 0 (mkCache p t ∅ None))
    as (Hpath & _ & _).
  fold c0 in Hpath. simpl in Hpath.
  pose proof (save_file (clock (length initial)) c0 e) as Hsaved.
  rewrite Hpath in Hsaved.
  destruct (BoringCache.save (clock (length initial)) c0 e) as [c1 e1] eqn:Hsave.
  simpl in Hsaved.
  exists c1, (BoringCache.addExitListener e1).
  unfold Part000.constructor. simpl. rewrite Hsaved.
  eexists. eexists. split; [done|]. split; [reflexivity|]. done.
Qed.

Lemma seed_slots (initial : list (string * V)) (t : Ttl) (clock : nat -> Z) :
  forall (i : nat) (c : Cache V) (k : string) (slot : Slot V),
    data (Part000.seed initial t clock i c) !! k = Some slot ->
    data c !! k = Some slot
    \/ exists v j, (i <= j < i + length initial)%nat
                   /\ slot = Scalar (mkEntry v (stamp (clock j) t)).
Proof.
  induction initial as [|[k' v'] rest IH]; intros i c k slot Hk; simpl in *;
    [by left|].
  apply IH in Hk as [Hk|(v & j & Hj & ->)].
  - simpl in Hk. destruct (decide (k = k')) as [->|Hne].
    + rewrite lookup_insert_eq in Hk. injection Hk as <-.
      right. exists v', i. split; [lia | done].
    + rewrite lookup_insert_ne in Hk by done. by left.
  - right. exists v, j. split; [lia | done].
Qed.

(** X20: with a negative default ttl (one that stamps no entry with [0]) and
    a clock that does not run backwards, the constructor of [part_000]
    sweeps the initial data in the [save] it ends with: the cache starts
    empty and the file holds the empty mapping. *)
Theorem negative_ttl_seeds_nothing (p : string) (initial : list (string * V))
    (ms : Z) (clock : nat -> Z) (e : Env V) :
  files e !! p = None -> ms < 0 ->
  (forall i, clock i + ms <> 0) ->
  (forall i, (i < length initial)%nat -> clock i <= clock (length initial)) ->
  exists c e',
    Part000.constructor p initial (Millis ms) clock e = (Built c, e')
    /\ data c = ∅
    /\ written e' p = Some ∅.
Proof.
  intros Hfile Hneg Hnz Hmono. unfold Part000.constructor. rewrite Hfile.
  set (now := clock (length initial)).
  set (c0 := Part000.seed initial (Millis ms) clock 0
               (mkCache p (Millis ms) ∅ None)).
  destruct (seed_fields initial (Millis ms) clock 0
              (mkCache p (Millis ms) ∅ None)) as (Hpath & _ & _).
  fold c0 in Hpath. simpl in Hpath.
  assert (data (BoringCache.save now c0 e).1 = ∅) as Hempty.
  { apply map_eq. intros k. rewrite save_data, lookup_empty.
    destruct (data c0 !! k) as [slot|] eqn:Hk; [|done].
    apply seed_slots in Hk as [Hk|(v & j & Hj & ->)];
      [simpl in Hk; by rewrite lookup_empty in Hk|].
    simpl. assert (outdated now (mkEntry v (Some (clock j + ms))) = true) as ->;
      [|done].
    apply outdated_spec. exists (clock j + ms). split; [done|].
    split; [apply Hnz|]. assert (clock j <= now) by (apply Hmono; lia). lia. }
  pose proof (save_file now c0 e) as Hsaved. rewrite Hpath, Hempty in Hsaved.
  destruct (BoringCache.save now c0 e) as [c1 e1]. simpl in *.
  exists c1, (BoringCache.addExitListener e1). split; [done|]. split; [done|].
  unfold written. simpl. by rewrite Hsaved.
Qed.

End ConstructionMore.

(** Built on a missing file with [{a: 1}], then again with [{b: 2}]: the
    second cache holds what the first left. *)
Lemma initial_data_used_once_witness :
  exists c1 e1 c2 e2,
    Part000.constructor "cache.json" [("a", 1)] Infinity (steady 10) fresh_env
    = (Built c1, e1)
    /\ Part000.constructor "cache.json" [("b", 2)] (Millis 5) (steady 20) e1
       = (Built c2, e2)
    /\ data c2 = data c1.
Proof.
  destruct (initial_data_used_once "cache.json" [("a", 1)] [("b", 2)] Infinity
              (Millis 5) (steady 10) (steady 20) fresh_env)
    as (c1 & e1 & c2 & e2 & H1 & H2 & Hd & _).
  { vm_compute. reflexivity. }
  by exists c1, e1, c2, e2.
Defined.

(** [new BoringCache('cache.json', {data: {a: 1}, ttl: -5})], the clock
    reading [1000] and then [1001], starts empty. *)
Lemma negative_ttl_seeds_nothing_witness :
  exists c e',
    Part000.constructor "cache.json" [("a", 1)] (Millis (-5))
      (fun i => 1000 + Z.of_nat i) fresh_env
    = (Built c, e')
    /\ data c = ∅
    /\ written e' "cache.json" = Some ∅.
Proof.
  apply (negative_ttl_seeds_nothing "cache.json" [("a", 1)] (-5)
           (fun i => 1000 + Z.of_nat i) fresh_env).
  - vm_compute. reflexivity.
  - lia.
  - intros i. lia.
  - intros i Hi. simpl in *. lia.
Defined.

(** ** Writes to the same key, one after the other *)

Section Overwrite.

Context {V : Type} `{EqDecision V}.

Lemma list_after_push (key : string) (v : V) (w t : Z) (c : Cache V)
    (e : Env V) :
  BoringCache.list key t (BoringCache.push key v Infinity w c e).1
  = BoringCache.list key t c ++ [v].
Proof.
  unfold BoringCache.list. rewrite push_data, lookup_insert_eq.
  rewrite List.filter_app, map_app. simpl.
  by destruct (data c !! key) as [[entry|items]|].
Qed.

(** X21: the last write to a key other than ['__proto__'] wins: a [set]
    after a [set] leaves the mapping the second [set] alone would leave, a
    [delete] after a [set] leaves the mapping the [delete] alone would leave,
    and a [set] after a [push] leaves no trace of the list. *)
Theorem last_write_wins (key : string) (v1 v2 : V) (t1 t2 : Ttl) (w1 w2 : Z)
    (c : Cache V) (e e' e'' : Env V) :
  key <> "__proto__" ->
  data (BoringCache.set key v2 t2 w2 (BoringCache.set key v1 t1 w1 c e).1 e').1
  = data (BoringCache.set key v2 t2 w2 c e'').1
  /\ data (BoringCache.delete key (BoringCache.set key v1 t1 w1 c e).1 e').1
     = data (BoringCache.delete key c e'').1
  /\ data (BoringCache.set key v2 t2 w2 (BoringCache.push key v1 t1 w1 c e).1 e').1
     = data (BoringCache.set key v2 t2 w2 c e'').1.
Proof.
  intros _. rewrite !set_data, !delete_data, !set_data, push_data.
  by rewrite !insert_insert_eq, delete_insert_eq.
Qed.

(** X22: values pushed without a ttl are listed in the order of the calls:
    after [push(key, v1); push(key, v2)] the list ends with [v1; v2]. *)
Theorem pushes_keep_their_order (key : string) (v1 v2 : V) (w1 w2 t : Z)
    (c : Cache V) (e e' : Env V) :
  BoringCache.list key t
    (BoringCache.push key v2 Infinity w2
       (BoringCache.push key v1 Infinity w1 c e).1 e').1
  = BoringCache.list key t c ++ [v1; v2].
Proof.
  rewrite !list_after_push, <- app_assoc. done.
Qed.

End Overwrite.

(** [set('a', 1, 50); set('a', 2)] on the empty cache leaves what
    [set('a', 2)] alone leaves. *)
Lemma last_write_wins_witness :
  data (BoringCache.set "a" 2 Infinity 20
          (BoringCache.set "a" 1 (Millis 50) 10 empty_cache fresh_env).1
          fresh_env).1
  = data (BoringCache.set "a" 2 Infinity 20 empty_cache fresh_env).1.
Proof.
  refine (proj1 (last_write_wins "a" 1 2 (Millis 50) Infinity 10 20 empty_cache
                   fresh_env fresh_env fresh_env _)).
  discriminate.
Defined.
